(** * Gist GEO landing page: signup registrar and health-check monitor

    A shallow embedding of the server-side logic of the repository:

    - [convex/signups.ts]   ([createSignup], the signup mutation),
    - [lib/health-check.ts] ([executeHealthCheck], [formatHealthAlert],
      [sendSlackAlert]),
    - the handler of [GET /api/health] (the health-status endpoint),
    - the handler of [GET /api/cron/health-check] (the scheduled job).

    Numbers of the source that count attempts or milliseconds, or are HTTP
    statuses, are integers here ([Z]).

    Console logging is not part of the model: no statement below is about
    the log output. *)

From Stdlib Require Import List Bool Ascii String NArith ZArith Lia.
From Stdlib Require Import DecimalString.
Import ListNotations.

Set Implicit Arguments.

(* ===================================================================== *)
(** ** Regular expressions, as far as [signups.ts] uses them *)
(* ===================================================================== *)

(** [RegExp.prototype.test] on a pattern of the form [^r$] without flags
    answers whether the whole input belongs to the language of [r].  The
    matcher below decides that by Brzozowski derivatives; the pattern of
    the source uses character classes, concatenation and [+] only. *)
Module JsRegExp.
Section Matcher.

Variable A : Type.

Inductive re : Type :=
| Void : re
| Eps : re
| Class : (A -> bool) -> re
| Cat : re -> re -> re
| Alt : re -> re -> re
| Star : re -> re.

(** [r+] is [r r*]. *)
Definition Plus (r : re) : re := Cat r (Star r).

Fixpoint nullable (r : re) : bool :=
  match r with
  | Void => false
  | Eps => true
  | Class _ => false
  | Cat r1 r2 => nullable r1 && nullable r2
  | Alt r1 r2 => nullable r1 || nullable r2
  | Star _ => true
  end.

Fixpoint deriv (a : A) (r : re) : re :=
  match r with
  | Void => Void
  | Eps => Void
  | Class p => if p a then Eps else Void
  | Cat r1 r2 =>
      if nullable r1
      then Alt (Cat (deriv a r1) r2) (deriv a r2)
      else Cat (deriv a r1) r2
  | Alt r1 r2 => Alt (deriv a r1) (deriv a r2)
  | Star r1 => Cat (deriv a r1) (Star r1)
  end.

(** [test r s]: does [/^r$/.test(s)] answer [true]? *)
Fixpoint test (r : re) (s : list A) : bool :=
  match s with
  | [] => nullable r
  | a :: s' => test (deriv a r) s'
  end.

(** The language of a pattern, as a relation. *)
Inductive lang : re -> list A -> Prop :=
| L_Eps : lang Eps []
| L_Class : forall (p : A -> bool) a, p a = true -> lang (Class p) [a]
| L_Cat : forall r1 r2 s1 s2,
    lang r1 s1 -> lang r2 s2 -> lang (Cat r1 r2) (s1 ++ s2)
| L_AltL : forall r1 r2 s, lang r1 s -> lang (Alt r1 r2) s
| L_AltR : forall r1 r2 s, lang r2 s -> lang (Alt r1 r2) s
| L_Star0 : forall r, lang (Star r) []
| L_StarS : forall r s1 s2,
    lang r s1 -> lang (Star r) s2 -> lang (Star r) (s1 ++ s2).

End Matcher.

Arguments Void {A}.
Arguments Eps {A}.

End JsRegExp.

(* ===================================================================== *)
(** ** The signup registrar ([convex/schema.ts], [convex/signups.ts]) *)
(* ===================================================================== *)

Module Signups.
Import JsRegExp.

(** A JavaScript string is a sequence of UTF-16 code units; the pattern
    of the registrar has no [u] flag, so its classes range over single
    code units. *)
Definition code_unit : Type := N.
Definition jsstring : Type := list code_unit.

(** ASCII literals as code units. *)
Fixpoint of_string (s : string) : jsstring :=
  match s with
  | EmptyString => []
  | String c s' => N_of_ascii c :: of_string s'
  end.

(** The class [\s] of ECMAScript: WhiteSpace and LineTerminator. *)
Definition isWhiteSpace (c : code_unit) : bool :=
  ((9 <=? c) && (c <=? 13)                (* TAB LF VT FF CR *)
   || (c =? 32)                           (* SPACE *)
   || (c =? 160)                          (* U+00A0 *)
   || (c =? 5760)                         (* U+1680 *)
   || ((8192 <=? c) && (c <=? 8202))      (* U+2000 .. U+200A *)
   || (c =? 8232) || (c =? 8233)          (* U+2028, U+2029 *)
   || (c =? 8239)                         (* U+202F *)
   || (c =? 8287)                         (* U+205F *)
   || (c =? 12288)                        (* U+3000 *)
   || (c =? 65279))%N.                    (* U+FEFF *)

Definition AT : code_unit := 64%N.
Definition DOT : code_unit := 46%N.

(** The class [[^\s@]]. *)
Definition notSpaceNorAt (c : code_unit) : bool :=
  negb (isWhiteSpace c || (c =? AT)%N).

(** [const emailRegex = /^[^\s@]+@[^\s@]+\.[^\s@]+$/;] *)
Definition emailRegex : re code_unit :=
  Cat (Plus (Class notSpaceNorAt))
   (Cat (Class (N.eqb AT))
    (Cat (Plus (Class notSpaceNorAt))
     (Cat (Class (N.eqb DOT))
          (Plus (Class notSpaceNorAt))))).

(** The address shape in the words of the specification: one or more
    non-whitespace non-"@" characters, then "@", then one or more such
    characters, then ".", then one or more such characters. *)
Definition plain (s : jsstring) : Prop :=
  s <> [] /\ Forall (fun c => notSpaceNorAt c = true) s.

Definition email_shape (s : jsstring) : Prop :=
  exists a b c,
    s = a ++ [AT] ++ b ++ [DOT] ++ c /\ plain a /\ plain b /\ plain c.

(** *** The store *)

(** A document of the [signups] table: the two fields of the schema and
    the identifier the store assigns on insertion. *)
Record doc : Type := mkDoc {
  _id : nat;
  email : jsstring;
  source : option string
}.

(** The table in creation order, and the next free identifier. *)
Record Db : Type := mkDb {
  signups : list doc;
  next_id : nat
}.

(** Store accesses a mutation can make, recorded in the order made. *)
Inductive db_op : Type :=
| OpFirstByEmail : jsstring -> db_op
| OpInsert : doc -> db_op.

(** A mutation body: reads and writes the store, logs each access, and
    either throws (an error message) or returns. *)
Definition Tx (X : Type) : Type :=
  Db -> list db_op -> (string + X) * Db * list db_op.

Definition ret {X} (x : X) : Tx X := fun db log => (inr x, db, log).

Definition throw {X} (msg : string) : Tx X := fun db log => (inl msg, db, log).

Definition bind {X Y} (m : Tx X) (k : X -> Tx Y) : Tx Y :=
  fun db log =>
    match m db log with
    | (inl e, db', log') => (inl e, db', log')
    | (inr x, db', log') => k x db' log'
    end.

Notation "x <- m ;; k" := (bind m (fun x => k))
  (at level 61, m at next level, right associativity).
Notation "m ;;; k" := (bind m (fun _ => k))
  (at level 61, right associativity).

Definition jsstring_eqb (s t : jsstring) : bool :=
  if list_eq_dec N.eq_dec s t then true else false.

(** [ctx.db.query("signups").withIndex("by_email", q => q.eq("email", e)).first()] *)
Definition firstByEmail (e : jsstring) : Tx (option doc) :=
  fun db log =>
    (inr (find (fun d => jsstring_eqb (email d) e) (signups db)),
     db, log ++ [OpFirstByEmail e]).

(** [ctx.db.insert("signups", { email, source })] *)
Definition insertSignup (e : jsstring) (src : option string) : Tx unit :=
  fun db log =>
    let d := mkDoc (next_id db) e src in
    (inr tt, mkDb (signups db ++ [d]) (S (next_id db)), log ++ [OpInsert d]).

Record signup_result : Type := mkResult {
  success : bool;
  duplicate : bool
}.

(** The handler of [createSignup]. *)
Definition handler (args_email : jsstring) : Tx signup_result :=
  if negb (test emailRegex args_email)
  then throw "Invalid email format"
  else
    existing <- firstByEmail args_email ;;
    match existing with
    | Some _ => ret (mkResult true true)
    | None =>
        insertSignup args_email (Some "landing-page"%string) ;;;
        ret (mkResult true false)
    end.

(** The outcome of one call of a mutation: what the caller gets, the
    store afterwards and the accesses made. *)
Record outcome : Type := mkOutcome {
  returned : string + signup_result;
  db_after : Db;
  accesses : list db_op
}.

(** [mutation({ handler })]: the body runs as one transaction; when it
    throws, its writes are discarded. *)
Definition createSignup (args_email : jsstring) (db : Db) : outcome :=
  match handler args_email db [] with
  | (inl e, _, log) => mkOutcome (inl e) db log
  | (inr r, db', log) => mkOutcome (inr r) db' log
  end.

Definition is_insert (o : db_op) : bool :=
  match o with OpInsert _ => true | OpFirstByEmail _ => false end.

Definition inserts (log : list db_op) : nat :=
  List.length (filter is_insert log).

(** Folding of the ASCII letters to lower case, to speak of addresses
    that differ in letter case only. *)
Definition lower_case (s : jsstring) : jsstring :=
  map (fun c => if ((65 <=? c) && (c <=? 90))%N then (c + 32)%N else c) s.

(** No document of the table carries the address [e]. *)
Definition unregistered (e : jsstring) (db : Db) : Prop :=
  forall d, In d (signups db) -> email d <> e.

End Signups.

(* ===================================================================== *)
(** ** Values shared by the health-check code *)
(* ===================================================================== *)

(** Texts here are only concatenated, compared for equality and tested
    for emptiness, so they are kept as byte strings. *)
Module Js.

Local Open Scope string_scope.

(** What a [catch] clause can receive. *)
Inductive thrown : Type :=
| ErrorObject : string -> thrown      (* an [Error] with its [message] *)
| OtherValue : thrown.                (* anything that is not an [Error] *)

(** [error instanceof Error ? error.message : dflt] *)
Definition message_or (dflt : string) (e : thrown) : string :=
  match e with
  | ErrorObject m => m
  | OtherValue => dflt
  end.

(** Truthiness of a value that is a string or [undefined]/[null]. *)
Definition truthy (v : option string) : bool :=
  match v with
  | Some s => negb (s =? "")
  | None => false
  end.

(** [a || b] where [b] is a string. *)
Definition or_string (a : option string) (b : string) : string :=
  match a with
  | Some s => if s =? "" then b else s
  | None => b
  end.

(** [a || b] where [b] may be [undefined] as well. *)
Definition or_else (a b : option string) : option string :=
  if truthy a then a else b.

(** A string or [undefined] inside a template literal. *)
Definition template (v : option string) : string :=
  match v with
  | Some s => s
  | None => "undefined"
  end.

(** [String(n)] for an integer [n] (of magnitude below 10^21). *)
Definition string_of_Z (n : Z) : string :=
  NilZero.string_of_int (Z.to_int n).

Definition LF : string := String (ascii_of_nat 10) "".

(** [Array.prototype.join]. *)
Definition join (sep : string) (l : list string) : string :=
  String.concat sep l.

(** [NextResponse.json(body, { status })]. *)
Record Response (B : Type) : Type := mkResponse {
  body : B;
  statusCode : Z
}.

(** [process.env], the variables the code reads. *)
Record Env : Type := mkEnv {
  CRON_SECRET : option string;
  NODE_ENV : option string;
  SLACK_WEBHOOK_URL : option string;
  NEXT_PUBLIC_CONVEX_URL : option string
}.

End Js.

(* ===================================================================== *)
(** ** [lib/health-check.ts] *)
(* ===================================================================== *)

Module HealthCheck.
Import Js.

Local Open Scope string_scope.
Local Open Scope Z_scope.

Record HealthCheckResult : Type := mkResult {
  url : string;
  success : bool;
  status : option Z;
  error : option string;
  attempts : Z;
  responseTime : option Z
}.

(** A [{ type, text }] entry of a [fields] or [elements] array. *)
Record TextItem : Type := mkItem {
  item_type : string;
  item_text : string
}.

Record TextObject : Type := mkText {
  text_type : string;
  text_text : string;
  text_emoji : option bool
}.

Record Block : Type := mkBlock {
  block_type : string;
  block_text : option TextObject;
  block_fields : option (list TextItem);
  block_elements : option (list TextItem)
}.

Record SlackHealthAlert : Type := mkAlert {
  text : string;
  blocks : list Block
}.

(** How one [fetch(url, { method: 'GET', signal: AbortSignal.timeout(10000) })]
    ends: with a response, taking [elapsed] milliseconds by [Date.now()],
    or with an exception (time-out, DNS, refused connection). *)
Inductive fetch_outcome : Type :=
| Responded (st : Z) (statusText : string) (elapsed : Z)
| Threw (e : thrown).

(** How the [POST] to the webhook ends. *)
Inductive post_outcome : Type :=
| PostResponded (st : Z)
| PostThrew (e : thrown).

(** [Response.ok] of the Fetch standard: a status in 200..299. *)
Definition ok (st : Z) : bool := (200 <=? st) && (st <=? 299).

(** What a task does to the outside, in the order done. *)
Inductive event : Type :=
| EvGet : string -> event                          (* [fetch(url)] *)
| EvSleep : Z -> event                             (* [setTimeout(resolve, ms)] *)
| EvPost : string -> SlackHealthAlert -> event.    (* [fetch(webhook, POST)] *)

(** The values of the loop variable of
    [for (let attempt = 0; attempt <= retries; attempt++)]. *)
Definition attempt_range (retries : Z) : list Z :=
  map Z.of_nat (seq 0 (Z.to_nat (retries + 1))).

Section Probe.

(** [net attempt] is how the request of that attempt ends. *)
Variable net : Z -> fetch_outcome.
Variables (the_url : string) (retries delayMs : Z).

(** The body of the [for] loop over the attempts still to run, with
    [lastError] and [lastStatus] and the events so far; after the loop,
    the "all attempts failed" result. *)
Fixpoint attemptLoop (todo : list Z) (lastError : string)
    (lastStatus : option Z) (trace : list event)
    : HealthCheckResult * list event :=
  match todo with
  | [] =>
      (mkResult the_url false lastStatus (Some lastError) (retries + 1) None,
       trace)
  | attempt :: rest =>
      match net attempt with
      | Responded st statusText elapsed =>
          if ok st
          then (mkResult the_url true (Some st) None (attempt + 1)
                  (Some elapsed),
                (trace ++ [EvGet the_url])%list)
          else attemptLoop rest
                 ("HTTP " ++ string_of_Z st ++ ": " ++ statusText)
                 (Some st) (trace ++ [EvGet the_url])%list
      | Threw e =>
          attemptLoop rest (message_or "Unknown error" e) lastStatus
            (trace ++ [EvGet the_url]
                   ++ (if attempt <? retries then [EvSleep delayMs] else []))%list
      end
  end.

Definition executeHealthCheck : HealthCheckResult * list event :=
  attemptLoop (attempt_range retries) "" None [].

End Probe.

Definition failed (r : HealthCheckResult) : bool := negb (success r).

(** The four fields shown for one failed check. *)
Definition fields_of (result : HealthCheckResult) : list TextItem :=
  [ mkItem "mrkdwn" ("*üîó URL:*" ++ LF ++ url result);
    mkItem "mrkdwn"
      ("*üìä Status:*" ++ LF ++
       match status result with
       | Some st => if st =? 0 then "N/A" else string_of_Z st
       | None => "N/A"
       end);
    mkItem "mrkdwn" ("*üîÑ Attempts:*" ++ LF ++ string_of_Z (attempts result));
    mkItem "mrkdwn" ("*‚ùå Error:*" ++ LF ++ or_string (error result) "Unknown error") ].

(** [formatHealthAlert(results, baseUrl)]; [timestamp] is what
    [new Date().toLocaleString('en-US', { ..., timeZone: 'America/Los_Angeles' })]
    gives at the moment of the call. *)
Definition formatHealthAlert (timestamp : string)
    (results : list HealthCheckResult) (baseUrl : string) : SlackHealthAlert :=
  let failedChecks := filter failed results in
  let fields := flat_map fields_of failedChecks in
  let n := Z.of_nat (List.length failedChecks) in
  mkAlert "üö® Gist GEO Health Check Failed"
    [ mkBlock "header"
        (Some (mkText "plain_text" "üö® Health Check Alert" (Some true))) None None;
      mkBlock "section"
        (Some (mkText "mrkdwn"
           ("*" ++ string_of_Z n ++ "* health check"
                ++ (if n >? 1 then "s" else "") ++ " failed for *"
                ++ baseUrl ++ "*") None)) None None;
      mkBlock "divider" None None None;
      mkBlock "section" None (Some fields) None;
      mkBlock "divider" None None None;
      mkBlock "context" None None
        (Some [mkItem "mrkdwn" ("‚è∞ " ++ timestamp ++ " PST")]) ].

(** [sendSlackAlert(results, baseUrl, webhookUrl?)]: [post] is how the
    request to the webhook ends. *)
Definition sendSlackAlert (env : Env)
    (post : string -> SlackHealthAlert -> post_outcome) (timestamp : string)
    (results : list HealthCheckResult) (baseUrl : string)
    (webhookUrl : option string) : bool * list event :=
  let webhook := or_else webhookUrl (SLACK_WEBHOOK_URL env) in
  if negb (truthy webhook) then (false, [])
  else
    let failedChecks := filter failed results in
    if (List.length failedChecks =? 0)%nat then (true, [])
    else
      let message := formatHealthAlert timestamp results baseUrl in
      let target := template webhook in
      match post target message with
      | PostResponded st =>
          if negb (ok st) then (false, [EvPost target message])
          else (true, [EvPost target message])
      | PostThrew _ => (false, [EvPost target message])
      end.

(** *** Vocabulary for the statements about the probe *)

(** An attempt that does not end the probe: a response outside 200..299,
    or an exception. *)
Definition attempt_fails (o : fetch_outcome) : Prop :=
  match o with
  | Responded st _ _ => ok st = false
  | Threw _ => True
  end.

(** The failure description a failed attempt leaves behind. *)
Definition error_of_attempt (o : fetch_outcome) : string :=
  match o with
  | Responded st statusText _ => "HTTP " ++ string_of_Z st ++ ": " ++ statusText
  | Threw e => message_or "Unknown error" e
  end.

(** The status of the latest attempt among [0..k] that got a response. *)
Fixpoint last_response_status (net : Z -> fetch_outcome) (k : nat)
    : option Z :=
  match net (Z.of_nat k) with
  | Responded st _ _ => Some st
  | Threw _ =>
      match k with
      | O => None
      | S k' => last_response_status net k'
      end
  end.

Definition is_get (e : event) : bool :=
  match e with EvGet _ => true | _ => false end.

Definition is_sleep (e : event) : bool :=
  match e with EvSleep _ => true | _ => false end.

(** The number of requests a probe made. *)
Definition requests (trace : list event) : Z :=
  Z.of_nat (List.length (filter is_get trace)).

End HealthCheck.

(* ===================================================================== *)
(** ** The handler of [GET /api/health] *)
(* ===================================================================== *)

Module HealthRoute.
Import Js.

Local Open Scope string_scope.

(** The interface [HealthCheckResponse] of [lib/health-check.ts]. *)
Inductive health_status : Type := StatusOk | StatusError.   (* 'ok' | 'error' *)

Record Checks : Type := mkChecks {
  convex : bool;
  environment : bool
}.

Record HealthCheckResponse : Type := mkHealth {
  status : health_status;
  timestamp : string;
  checks : Checks;
  error : option string
}.

(** What the handler takes from outside: the reading of
    [new Date().toISOString()], and [fault], an exception the runtime
    raises while the [try] block runs, if any (the block has no [throw]
    of its own). *)
Record World : Type := mkWorld {
  isoTime : string;
  fault : option thrown
}.

(** [try { ... } catch (error) { ... }] *)
Definition try_catch {X} (block : thrown + X) (handler : thrown -> X) : X :=
  match block with
  | inr x => x
  | inl e => handler e
  end.

Definition GET (env : Env) (w : World) : Response HealthCheckResponse :=
  try_catch
    (match fault w with
     | Some e => inl e
     | None =>
         let timestamp := isoTime w in
         let convexUrl := NEXT_PUBLIC_CONVEX_URL env in
         let convexHealthy :=
           match convexUrl with
           | Some s => truthy convexUrl && (0 <? String.length s)%nat
           | None => false
           end in
         let nodeEnv := NODE_ENV env in
         let environmentHealthy := truthy nodeEnv in
         let allHealthy := convexHealthy && environmentHealthy in
         let response :=
           mkHealth (if allHealthy then StatusOk else StatusError) timestamp
             (mkChecks convexHealthy environmentHealthy) None in
         let response :=
           if negb allHealthy
           then
             let errors := [] in
             let errors :=
               if negb convexHealthy
               then (errors ++ ["Convex URL not configured"])%list
               else errors in
             let errors :=
               if negb environmentHealthy
               then (errors ++ ["Environment not configured"])%list
               else errors in
             mkHealth (status response) (timestamp) (checks response)
               (Some (join ", " errors))
           else response in
         let statusCode := if allHealthy then 200%Z else 503%Z in
         inr (mkResponse response statusCode)
     end)
    (fun error =>
       mkResponse
         (mkHealth StatusError (isoTime w) (mkChecks false false)
            (Some (message_or "Unknown error occurred" error)))
         503%Z).

(** A variable that is set to a non-empty text. *)
Definition set_and_non_empty (v : option string) : Prop :=
  exists s, v = Some s /\ s <> "".

End HealthRoute.

(* ===================================================================== *)
(** ** The handler of [GET /api/cron/health-check] *)
(* ===================================================================== *)

Module CronRoute.
Import Js HealthCheck.

Local Open Scope string_scope.

(** [request.headers.get(...)] for the two headers read. *)
Record Request : Type := mkRequest {
  authorization : option string;
  host : option string
}.

(** What the handler takes from outside: how the requests of a probe to
    a given URL end, attempt by attempt; how the request to the webhook
    ends; the readings of the clock. *)
Record World : Type := mkWorld {
  net : string -> Z -> fetch_outcome;
  post : string -> SlackHealthAlert -> post_outcome;
  isoTime : string;        (* [new Date().toISOString()] *)
  localTime : string;      (* the [toLocaleString] of [formatHealthAlert] *)
  duration : Z             (* [Date.now() - startTime] *)
}.

Inductive Body : Type :=
| ErrorBody (error : string)
| Summary (success : bool) (timestamp : string) (duration : Z)
    (results : list HealthCheckResult) (alertSent : bool).

(** What a run did to the outside: the events of each probe, in the
    order the probes were issued (the probes run concurrently, so only
    the order inside a probe is determined), and the events of alerting. *)
Record Effects : Type := mkEffects {
  probing : list (list event);
  alerting : list event
}.

Definition no_effects : Effects := mkEffects [] [].

(** [Promise.all] of the two probes: results in the order of the array. *)
Definition probe_all (w : World) (urls : list string)
    : list (HealthCheckResult * list event) :=
  map (fun u => executeHealthCheck (net w u) u 1 5000) urls.

Definition GET (env : Env) (w : World) (request : Request)
    : Response Body * Effects :=
  let authHeader := authorization request in
  let expectedSecret := CRON_SECRET env in
  if negb (truthy expectedSecret)
  then (mkResponse (ErrorBody "Cron secret not configured") 401%Z, no_effects)
  else
    let expectedAuth := "Bearer " ++ template expectedSecret in
    if negb (truthy authHeader)
       || negb (match authHeader with
                | Some h => h =? expectedAuth
                | None => false
                end)
    then (mkResponse (ErrorBody "Unauthorized") 401%Z, no_effects)
    else
      let protocol :=
        match NODE_ENV env with
        | Some e => if e =? "production" then "https" else "http"
        | None => "http"
        end in
      let host := or_string (host request) "localhost:3000" in
      let baseUrl := protocol ++ "://" ++ host in
      let probes := probe_all w [baseUrl ++ "/"; baseUrl ++ "/api/health"] in
      let results := map fst probes in
      let allPassed := forallb success results in
      let alert :=
        if negb allPassed
        then snd (sendSlackAlert env (post w) (localTime w) results baseUrl None)
        else [] in
      (mkResponse
         (Summary allPassed (isoTime w) (duration w)
            (map (fun r => mkResult (url r) (success r) (status r) (error r)
                             (attempts r) (responseTime r)) results)
            (negb allPassed))
         200%Z,
       mkEffects (map snd probes) alert).

(** The base URL the handler probes. *)
Definition baseUrl_of (env : Env) (request : Request) : string :=
  (match NODE_ENV env with
   | Some e => if e =? "production" then "https" else "http"
   | None => "http"
   end) ++ "://" ++ or_string (host request) "localhost:3000".

(** The request carries [Authorization: Bearer <secret>] for the secret
    the server holds. *)
Definition authorized (env : Env) (request : Request) : Prop :=
  exists secret,
    CRON_SECRET env = Some secret /\ secret <> "" /\
    authorization request = Some ("Bearer " ++ secret).

(** The same world with another fate for the webhook request. *)
Definition with_post (w : World)
    (p : string -> SlackHealthAlert -> post_outcome) : World :=
  mkWorld (net w) p (isoTime w) (localTime w) (duration w).

End CronRoute.

(* ===================================================================== *)
(** ** Runs of the registrar *)
(* ===================================================================== *)

Module SignupRuns.
Import Signups.

(** The addresses on record, in creation order. *)
Definition emails (db : Db) : list jsstring := map email (signups db).


(** One call of [createSignup] after the other, each a transaction of its
    own, for the submitted addresses in order. *)
Definition submit_all (es : list jsstring) (db : Db) : Db :=
  fold_left (fun db e => db_after (createSignup e db)) es db.

End SignupRuns.

(* ===================================================================== *)
(** ** Runs of the probe *)
(* ===================================================================== *)

Module ProbeRuns.
Import Js HealthCheck.


(** An attempt that ends with an exception. *)
Definition threw (o : fetch_outcome) : bool :=
  match o with
  | Responded _ _ _ => false
  | Threw _ => true
  end.

(** The number of times a probe slept. *)
Definition sleeps (trace : list event) : Z :=
  Z.of_nat (List.length (filter is_sleep trace)).

(** An event a probe of [u] with delay [d] can produce. *)
Definition probe_event (u : string) (d : Z) (ev : event) : Prop :=
  ev = EvGet u \/ ev = EvSleep d.

End ProbeRuns.

(* ===================================================================== *)
(** ** [components/email-signup-input.tsx] and its use in [app/page.tsx] *)
(* ===================================================================== *)

(** The component as a state machine: the three React state cells, and
    each handler as a transition that also lists the calls it makes to the
    callbacks passed as props.  A handler reads the cells as they were when
    it started (the values of the render it belongs to) and the setters
    give the cells of the next render.  Styling, and the rest props spread
    on the input, are not modelled. *)
Module EmailSignupInput.
Import Js JsRegExp.

Local Open Scope string_scope.

(** [type EmailInputState = "default" | "submitted" | "success" | "error"] *)
Inductive EmailInputState : Type := Default | Submitted | Success | Error.

(** The props the handlers read.  For a callback, whether it is passed. *)
Record Props : Type := mkProps {
  onSubmit : bool;
  onSuccess : bool;
  onError : bool;
  onStateChange : bool;
  errorMessage : option string;
  controlledState : option EmailInputState      (* the prop [state] *)
}.

(** [internalState], [email], [error] of [React.useState]. *)
Record Cells : Type := mkCells {
  internalState : EmailInputState;
  email : Signups.jsstring;
  error : string
}.


Inductive call : Type :=
| CallPreventDefault : call
| CallOnStateChange : EmailInputState -> call
| CallOnSubmit : Signups.jsstring -> call
| CallOnError : string -> call
| CallOnSuccess : call.

(** How the promise of [onSubmit(email)] settles. *)
Inductive settled : Type :=
| Resolved : settled
| Rejected : thrown -> settled.

Definition step : Type := Cells -> Cells * list call.

Definition and_then (f g : step) : step :=
  fun c =>
    let (c1, calls1) := f c in
    let (c2, calls2) := g c1 in
    (c2, (calls1 ++ calls2)%list).

Definition skip : step := fun c => (c, []).

Definition notify (present : bool) (what : call) : step :=
  fun c => (c, if present then [what] else []).

(** [const state = controlledState ?? internalState;] *)
Definition state_of (p : Props) (c : Cells) : EmailInputState :=
  match controlledState p with
  | Some s => s
  | None => internalState c
  end.

(** [setState]: tell [onStateChange], and set the cell unless the state
    is controlled. *)
Definition setState (p : Props) (newState : EmailInputState) : step :=
  and_then (notify (onStateChange p) (CallOnStateChange newState))
    (fun c =>
       match controlledState p with
       | Some _ => (c, [])
       | None => (mkCells newState (email c) (error c), [])
       end).

Definition setEmail (v : Signups.jsstring) : step :=
  fun c => (mkCells (internalState c) v (error c), []).

Definition setError (m : string) : step :=
  fun c => (mkCells (internalState c) (email c) m, []).

(** [/^[^\s@]+@[^\s@]+\.[^\s@]+$/.test(email)] *)
Definition isValidEmailFormat (e : Signups.jsstring) : bool :=
  test
    (Cat (Plus (Class Signups.notSpaceNorAt))
      (Cat (Class (N.eqb 64))
        (Cat (Plus (Class Signups.notSpaceNorAt))
          (Cat (Class (N.eqb 46))
               (Plus (Class Signups.notSpaceNorAt))))))
    e.

Definition is_empty (v : Signups.jsstring) : bool :=
  match v with [] => true | _ => false end.

(** [handleChange], for the new content [value] of the input. *)
Definition handleChange (p : Props) (value : Signups.jsstring) : step :=
  fun c =>
    and_then (setEmail value)
      (and_then
         (if negb (error c =? "") && isValidEmailFormat value
          then setError "" else skip)
         (if is_empty value
          then setState p Default
          else setState p Submitted))
      c.

(** The part of [handleSubmit] after a failure, with its message. *)
Definition fail_with (p : Props) (errMsg : string) : step :=
  and_then (setState p Error)
    (and_then (setError errMsg) (notify (onError p) (CallOnError errMsg))).

Definition succeed (p : Props) : step :=
  and_then (setState p Success) (setError "").

(** [handleSubmit] up to the [await]: the cells and calls so far, and
    whether the promise of [onSubmit] is awaited. *)
Definition handleSubmit_start (p : Props) (c : Cells)
    : Cells * list call * bool :=
  if is_empty (email c) || negb (isValidEmailFormat (email c))
  then
    let errMsg := or_string (errorMessage p) "Invalid email address." in
    (and_then (notify true CallPreventDefault) (fail_with p errMsg) c, false)
  else if onSubmit p
  then ((c, [CallPreventDefault; CallOnSubmit (email c)]), true)
  else (and_then (notify true CallPreventDefault) (succeed p) c, false).

(** [handleSubmit] from the moment the promise settles. *)
Definition handleSubmit_settle (p : Props) (s : settled) : step :=
  match s with
  | Resolved => succeed p
  | Rejected err =>
      fail_with p
        (or_string (errorMessage p) (message_or "Submission failed." err))
  end.

(** [handleSubmit] when nothing else happens while the promise is
    pending; [submit e] is how [onSubmit(e)] settles. *)
Definition handleSubmit (p : Props) (submit : Signups.jsstring -> settled)
    : step :=
  fun c =>
    match handleSubmit_start p c with
    | ((c1, calls1), true) =>
        let (c2, calls2) := handleSubmit_settle p (submit (email c)) c1 in
        (c2, (calls1 ++ calls2)%list)
    | ((c1, calls1), false) => (c1, calls1)
    end.

(** The timer of the effect, set while the state is "success", fires. *)
Definition autoReset (p : Props) : step :=
  fun c =>
    match state_of p c with
    | Success =>
        and_then (setState p Default)
          (and_then (setEmail [])
             (and_then (setError "") (notify (onSuccess p) CallOnSuccess)))
          c
    | _ => (c, [])
    end.

Definition getIcon (s : EmailInputState) : string :=
  match s with
  | Submitted => "/svg/arrow-up.svg"
  | Success => "/svg/check.svg"
  | Error | Default => "/svg/bell.svg"
  end.

Definition is_success (s : EmailInputState) : bool :=
  match s with Success => true | _ => false end.

Definition is_error (s : EmailInputState) : bool :=
  match s with Error => true | _ => false end.

(** What the render shows. *)
Record View : Type := mkView {
  value : Signups.jsstring;     (* of the input *)
  readOnly : bool;              (* of the input *)
  disabled : bool;              (* of the button *)
  ariaLabel : string;           (* of the button *)
  icon : string;
  alert : option string         (* the text of the [role="alert"] span *)
}.

Definition render (p : Props) (c : Cells) : View :=
  let state := state_of p c in
  mkView
    (if is_success state then Signups.of_string "Subscribed!" else email c)
    (is_success state)
    (is_success state)
    (if is_success state then "Subscribed" else "Submit email")
    (getIcon state)
    (if is_error state && negb (error c =? "") then Some (error c) else None).

(** *** [app/page.tsx] *)

(** The props [Home] passes: the three callbacks, no [errorMessage], no
    controlled state. *)
Definition Home_props : Props := mkProps true true true false None None.

(** [Home]'s [handleSubmit]: it logs, waits 500 ms and returns; the store
    is not called. *)
Definition Home_handleSubmit (e : Signups.jsstring) : settled := Resolved.

End EmailSignupInput.

(* ===================================================================== *)
(** * Properties *)
(* ===================================================================== *)

(** ** The matcher decides the language of a pattern *)

Section MatcherFacts.
Import JsRegExp.

Variable A : Type.
Implicit Types (r : re A) (s : list A) (a : A).

Lemma nullable_lang r : nullable r = true <-> lang r [].
Proof.
  split.
  - induction r; simpl; intro H; try discriminate.
    + constructor.
    + apply andb_true_iff in H as [H1 H2].
      change (@nil A) with (@nil A ++ []). constructor; auto.
    + apply orb_true_iff in H as [H | H].
      * apply L_AltL; auto.
      * apply L_AltR; auto.
    + constructor.
  - intro H. remember (@nil A) as w eqn:Ew.
    induction H; simpl; try discriminate; auto.
    + apply app_eq_nil in Ew as [E1 E2].
      rewrite IHlang1, IHlang2; auto.
    + rewrite IHlang; auto.
    + rewrite IHlang; auto. apply orb_true_r.
Qed.

Lemma deriv_sound a r : forall s, lang (deriv a r) s -> lang r (a :: s).
Proof.
  induction r as [| | p | r1 IH1 r2 IH2 | r1 IH1 r2 IH2 | r1 IH1];
    simpl; intros s H.
  - inversion H.
  - inversion H.
  - destruct (p a) eqn:Ep; inversion H; subst. constructor; exact Ep.
  - destruct (nullable r1) eqn:En.
    + inversion H as [| | | ? ? ? Hl | ? ? ? Hr | |]; subst.
      * inversion Hl as [| | ? ? s1 s2 H1 H2 | | | |]; subst.
        change (a :: s1 ++ s2) with ((a :: s1) ++ s2).
        constructor; auto.
      * change (a :: s) with ([] ++ a :: s).
        constructor; auto. apply nullable_lang; exact En.
    + inversion H as [| | ? ? s1 s2 H1 H2 | | | |]; subst.
      change (a :: s1 ++ s2) with ((a :: s1) ++ s2).
      constructor; auto.
  - inversion H; subst; [apply L_AltL | apply L_AltR]; auto.
  - inversion H as [| | ? ? s1 s2 H1 H2 | | | |]; subst.
    change (a :: s1 ++ s2) with ((a :: s1) ++ s2).
    apply L_StarS; auto.
Qed.

Lemma deriv_complete a r s : lang r (a :: s) -> lang (deriv a r) s.
Proof.
  intro H. remember (a :: s) as w eqn:Ew. revert s Ew.
  induction H as [| p b Hb | r1 r2 s1 s2 H1 IH1 H2 IH2 | r1 r2 w H IH
                  | r1 r2 w H IH | r1 | r1 s1 s2 H1 IH1 H2 IH2];
    intros s Ew; simpl.
  - discriminate.
  - injection Ew as -> <-. rewrite Hb. constructor.
  - destruct s1 as [| b s1'].
    + simpl in Ew. subst s2.
      apply nullable_lang in H1. rewrite H1.
      apply L_AltR. apply IH2; reflexivity.
    + simpl in Ew. injection Ew as -> <-.
      destruct (nullable r1).
      * apply L_AltL. constructor; auto.
      * constructor; auto.
  - apply L_AltL; auto.
  - apply L_AltR; auto.
  - discriminate.
  - destruct s1 as [| b s1'].
    + simpl in Ew. apply (IH2 s Ew).
    + simpl in Ew. injection Ew as -> <-.
      constructor; auto.
Qed.

(** [test] answers [true] exactly on the words of the language. *)
Lemma test_lang : forall s r, test r s = true <-> lang r s.
Proof.
  induction s as [| a s IH]; intro r; simpl.
  - apply nullable_lang.
  - rewrite IH. split; [apply deriv_sound | apply deriv_complete].
Qed.

Lemma lang_star_class (p : A -> bool) s :
  lang (Star (Class p)) s <-> Forall (fun c => p c = true) s.
Proof.
  split.
  - intro H. remember (Star (Class p)) as r eqn:Er.
    induction H; try discriminate.
    + constructor.
    + injection Er as ->.
      apply Forall_app; split; auto.
      inversion H; subst. repeat constructor; assumption.
  - induction 1 as [| c s Hc _ IH].
    + constructor.
    + change (c :: s) with ([c] ++ s).
      apply L_StarS; auto. constructor; exact Hc.
Qed.

(** [[c]+] matches the non-empty words made of [c]'s. *)
Lemma lang_plus_class (p : A -> bool) s :
  lang (Plus (Class p)) s <-> s <> [] /\ Forall (fun c => p c = true) s.
Proof.
  unfold Plus. split.
  - intro H. inversion H as [| | ? ? s1 s2 H1 H2 | | | |]; subst.
    inversion H1; subst. apply lang_star_class in H2.
    split; [discriminate | constructor; assumption].
  - intros [Hne Hall]. destruct s as [| c s]; [contradiction |].
    inversion Hall; subst.
    change (c :: s) with ([c] ++ s).
    constructor; [constructor; assumption | apply lang_star_class; assumption].
Qed.

Lemma lang_cat_inv r1 r2 s :
  lang (Cat r1 r2) s <-> exists s1 s2, s = s1 ++ s2 /\ lang r1 s1 /\ lang r2 s2.
Proof.
  split.
  - intro H. inversion H; subst. eauto.
  - intros (s1 & s2 & -> & H1 & H2). constructor; assumption.
Qed.

Lemma lang_class_inv (p : A -> bool) s :
  lang (Class p) s <-> exists c, s = [c] /\ p c = true.
Proof.
  split.
  - intro H. inversion H; subst. eauto.
  - intros (c & -> & H). constructor; assumption.
Qed.

End MatcherFacts.

(** ** The signup registrar *)

Section SignupFacts.
Import JsRegExp Signups.

(** The pattern of the source accepts exactly the shape the
    specification describes. *)
Lemma emailRegex_shape (e : jsstring) :
  test emailRegex e = true <-> email_shape e.
Proof.
  rewrite test_lang. unfold emailRegex, email_shape, plain. split.
  - intro H.
    apply lang_cat_inv in H as (a & t1 & -> & Ha & H).
    apply lang_cat_inv in H as (x & t2 & -> & Hx & H).
    apply lang_cat_inv in H as (b & t3 & -> & Hb & H).
    apply lang_cat_inv in H as (y & c & -> & Hy & Hc).
    apply lang_class_inv in Hx as (cx & -> & Ex).
    apply lang_class_inv in Hy as (cy & -> & Ey).
    apply N.eqb_eq in Ex, Ey. subst cx cy.
    apply lang_plus_class in Ha, Hb, Hc.
    exists a, b, c. auto.
  - intros (a & b & c & -> & Ha & Hb & Hc).
    apply lang_plus_class in Ha, Hb, Hc.
    repeat (apply L_Cat; auto); apply L_Class; apply N.eqb_refl.
Qed.

Lemma emailRegex_rejects (e : jsstring) :
  ~ email_shape e -> test emailRegex e = false.
Proof.
  intro H. destruct (test emailRegex e) eqn:E; [| reflexivity].
  exfalso. apply H, emailRegex_shape, E.
Qed.

Lemma jsstring_eqb_eq (s t : jsstring) : jsstring_eqb s t = true <-> s = t.
Proof.
  unfold jsstring_eqb. destruct (list_eq_dec N.eq_dec s t); split;
    auto; discriminate.
Qed.

Lemma find_unregistered (e : jsstring) (l : list doc) :
  (forall d, In d l -> email d <> e) ->
  find (fun d => jsstring_eqb (email d) e) l = None.
Proof.
  induction l as [| d l IH]; simpl; intro H; [reflexivity |].
  destruct (jsstring_eqb (email d) e) eqn:E.
  - apply jsstring_eqb_eq in E. exfalso. apply (H d); auto.
  - apply IH. intros d' Hd'. apply H. auto.
Qed.

Lemma find_registered (e : jsstring) (l : list doc) :
  (exists d, In d l /\ email d = e) ->
  exists d, find (fun d => jsstring_eqb (email d) e) l = Some d.
Proof.
  intros (d & Hd & Ed).
  destruct (find (fun d => jsstring_eqb (email d) e) l) eqn:F; eauto.
  exfalso. apply (find_none _ _ F) in Hd.
  apply (proj2 (jsstring_eqb_eq (email d) e)) in Ed. congruence.
Qed.

(** A first registration: one lookup, one insertion at the end of the
    table. *)
Lemma createSignup_new (e : jsstring) (db : Db) :
  email_shape e -> unregistered e db ->
  let d := mkDoc (next_id db) e (Some "landing-page"%string) in
  createSignup e db =
    mkOutcome (inr (mkResult true false))
      (mkDb (signups db ++ [d]) (S (next_id db)))
      [OpFirstByEmail e; OpInsert d].
Proof.
  intros Hv Hu. apply emailRegex_shape in Hv.
  unfold createSignup, handler, bind, firstByEmail, insertSignup, ret.
  rewrite Hv. simpl. rewrite (find_unregistered _ Hu). reflexivity.
Qed.

(** A registration of an address on record: one lookup, nothing else. *)
Lemma createSignup_again (e : jsstring) (db : Db) :
  email_shape e -> (exists d, In d (signups db) /\ email d = e) ->
  createSignup e db =
    mkOutcome (inr (mkResult true true)) db [OpFirstByEmail e].
Proof.
  intros Hv Hr. apply emailRegex_shape in Hv.
  destruct (find_registered _ Hr) as [d F].
  unfold createSignup, handler, bind, firstByEmail, ret.
  rewrite Hv. simpl. rewrite F. reflexivity.
Qed.

(** The flag [duplicate] answers whether some document carries exactly
    the submitted string. *)
Lemma createSignup_duplicate_iff (e : jsstring) (db : Db) :
  email_shape e ->
  (returned (createSignup e db) = inr (mkResult true true) <->
   exists d, In d (signups db) /\ email d = e).
Proof.
  intro Hv.
  destruct (find (fun d => jsstring_eqb (email d) e) (signups db)) eqn:F.
  - apply find_some in F as [Hin He]. apply jsstring_eqb_eq in He.
    assert (Hr : exists d, In d (signups db) /\ email d = e) by eauto.
    rewrite (createSignup_again db Hv Hr). tauto.
  - assert (Hu : unregistered e db).
    { intros d Hd Ed. apply (find_none _ _ F) in Hd.
      apply (proj2 (jsstring_eqb_eq (email d) e)) in Ed. congruence. }
    rewrite (createSignup_new Hv Hu). cbn. split.
    + discriminate.
    + intros (d & Hd & Ed). exfalso. exact (Hu d Hd Ed).
Qed.

(** The pattern on some addresses: a plain one; no "@"; no "." after the
    "@"; a space; two "@"; a no-break space (U+00A0); dots in the domain. *)
Example emailRegex_samples :
  test emailRegex (of_string "ann@example.com") = true /\
  test emailRegex (of_string "ann.example.com") = false /\
  test emailRegex (of_string "ann@example") = false /\
  test emailRegex (of_string "ann smith@example.com") = false /\
  test emailRegex (of_string "ann@@example.com") = false /\
  test emailRegex
    (of_string "ann" ++ [160%N] ++ of_string "@example.com") = false /\
  test emailRegex (of_string "a@b.c.d") = true.
Proof. vm_compute. repeat split. Qed.

(** C3.  An address that does not have the shape non-space-non-"@"
    characters, "@", such characters, ".", such characters (one or more
    each time) makes [createSignup] fail with the message "Invalid email
    format"; the store is as before and no access to it was made, neither
    a read nor an insertion. *)
Theorem createSignup_invalid_email :
  forall (e : jsstring) (db : Db),
    ~ email_shape e ->
    createSignup e db = mkOutcome (inl "Invalid email format"%string) db [].
Proof.
  intros e db H. unfold createSignup, handler.
  rewrite (emailRegex_rejects H). reflexivity.
Qed.

(** C2.  Registering a valid address twice, starting from a store with
    no record of it: the first call answers [duplicate: false], the second
    [duplicate: true]; over both calls one record is inserted; the second
    call writes nothing (the store is the one the first call left) and
    does not fail. *)
Theorem createSignup_twice :
  forall (e : jsstring) (db : Db),
    email_shape e -> unregistered e db ->
    let o1 := createSignup e db in
    let o2 := createSignup e (db_after o1) in
    returned o1 = inr (mkResult true false) /\
    returned o2 = inr (mkResult true true) /\
    signups (db_after o2) =
      signups db ++ [mkDoc (next_id db) e (Some "landing-page"%string)] /\
    inserts (accesses o1 ++ accesses o2) = 1 /\
    inserts (accesses o2) = 0 /\
    db_after o2 = db_after o1.
Proof.
  intros e db Hv Hu o1 o2. subst o1 o2.
  rewrite (createSignup_new Hv Hu). cbn [db_after returned accesses].
  rewrite createSignup_again; [| exact Hv |].
  - cbn. repeat split; reflexivity.
  - eexists. cbn. split; [apply in_or_app; right; left; reflexivity |].
    reflexivity.
Qed.

(** C10.  The registrar does not normalise the address.  Whatever
    folding of strings one has in mind ([fold]: lower-casing in
    particular), two valid addresses that are different strings with the
    same folding, registered one after the other in a store that has
    neither, are both new: each call answers [duplicate: false], the table
    gains two records with different identifiers, and each record carries
    the address exactly as submitted and the source tag "landing-page";
    the lookup of the second call is by the submitted string itself. *)
Theorem createSignup_no_normalization :
  forall (fold : jsstring -> jsstring) (db : Db) (e1 e2 : jsstring),
    email_shape e1 -> email_shape e2 ->
    e1 <> e2 -> fold e1 = fold e2 ->
    unregistered e1 db -> unregistered e2 db ->
    let o1 := createSignup e1 db in
    let o2 := createSignup e2 (db_after o1) in
    returned o1 = inr (mkResult true false) /\
    returned o2 = inr (mkResult true false) /\
    exists d1 d2,
      signups (db_after o2) = signups db ++ [d1; d2] /\
      _id d1 <> _id d2 /\
      email d1 = e1 /\ email d2 = e2 /\
      source d1 = Some "landing-page"%string /\
      source d2 = Some "landing-page"%string /\
      accesses o1 = [OpFirstByEmail e1; OpInsert d1] /\
      accesses o2 = [OpFirstByEmail e2; OpInsert d2] /\
      (forall db',
         returned (createSignup e2 db') = inr (mkResult true true) <->
         exists d, In d (signups db') /\ email d = e2).
Proof.
  intros fold db e1 e2 Hv1 Hv2 Hne _ Hu1 Hu2 o1 o2. subst o1 o2.
  rewrite (createSignup_new Hv1 Hu1). cbn [db_after returned accesses].
  rewrite createSignup_new; [| exact Hv2 |].
  - cbn. split; [reflexivity |]. split; [reflexivity |].
    eexists. eexists. rewrite <- app_assoc. cbn.
    repeat split; try reflexivity.
    + cbn. lia.
    + apply (createSignup_duplicate_iff db' Hv2).
    + apply (createSignup_duplicate_iff db' Hv2).
  - intros d Hd. cbn in Hd. apply in_app_or in Hd as [Hd | [<- | []]].
    + apply Hu2, Hd.
    + cbn. exact Hne.
Qed.

Lemma createSignup_invalid_email_witness :
  createSignup (of_string "ann.example.com") (mkDb [] 0) =
    mkOutcome (inl "Invalid email format"%string) (mkDb [] 0) [].
Proof.
  apply (createSignup_invalid_email (e := of_string "ann.example.com")).
  intro H. apply emailRegex_shape in H. vm_compute in H. discriminate H.
Defined.

Lemma createSignup_twice_witness :
  let o1 := createSignup (of_string "ann@example.com") (mkDb [] 0) in
  let o2 := createSignup (of_string "ann@example.com") (db_after o1) in
  returned o1 = inr (mkResult true false) /\
  returned o2 = inr (mkResult true true) /\
  signups (db_after o2) =
    [] ++ [mkDoc 0 (of_string "ann@example.com") (Some "landing-page"%string)] /\
  inserts (accesses o1 ++ accesses o2) = 1 /\
  inserts (accesses o2) = 0 /\
  db_after o2 = db_after o1.
Proof.
  apply (createSignup_twice (e := (of_string "ann@example.com")) (db := mkDb [] 0)).
  - apply emailRegex_shape. vm_compute. reflexivity.
  - intros d [].
Defined.

Lemma createSignup_no_normalization_witness :
  let o1 := createSignup (of_string "Ann@Example.com") (mkDb [] 0) in
  let o2 := createSignup (of_string "ann@example.com") (db_after o1) in
  returned o1 = inr (mkResult true false) /\
  returned o2 = inr (mkResult true false) /\
  exists d1 d2,
    signups (db_after o2) = [] ++ [d1; d2] /\
    _id d1 <> _id d2 /\
    email d1 = (of_string "Ann@Example.com") /\ email d2 = (of_string "ann@example.com") /\
    source d1 = Some "landing-page"%string /\
    source d2 = Some "landing-page"%string /\
    accesses o1 = [OpFirstByEmail (of_string "Ann@Example.com"); OpInsert d1] /\
    accesses o2 = [OpFirstByEmail (of_string "ann@example.com"); OpInsert d2] /\
    (forall db',
       returned (createSignup (of_string "ann@example.com") db')
         = inr (mkResult true true) <->
       exists d, In d (signups db') /\ email d = of_string "ann@example.com").
Proof.
  apply (createSignup_no_normalization lower_case
           (db := mkDb [] 0) (e1 := (of_string "Ann@Example.com")) (e2 := (of_string "ann@example.com"))).
  - apply emailRegex_shape. vm_compute. reflexivity.
  - apply emailRegex_shape. vm_compute. reflexivity.
  - vm_compute. discriminate.
  - vm_compute. reflexivity.
  - intros d [].
  - intros d [].
Defined.

End SignupFacts.

(** ** The probe *)

Section ProbeFacts.
Import Js HealthCheck.
Local Open Scope Z_scope.

Variable net : Z -> fetch_outcome.
Variables (the_url : string) (retries delayMs : Z).

Let loop := attemptLoop net the_url retries delayMs.

(** Whatever happens, the result names the probed URL. *)
Lemma attemptLoop_url :
  forall todo le ls tr, url (fst (loop todo le ls tr)) = the_url.
Proof.
  induction todo as [| k todo IH]; intros le ls tr; simpl; [reflexivity |].
  destruct (net k) as [st txt el | e]; [destruct (ok st) |]; simpl; auto.
Qed.

(** When every remaining attempt fails, the loop runs to its end: the
    result is the "all attempts failed" one, with the status and error
    recorded last. *)
Lemma attemptLoop_all_fail :
  forall todo le ls tr,
    Forall (fun k => attempt_fails (net k)) todo ->
    fst (loop todo le ls tr) =
      mkResult the_url false
        (fold_left (fun acc k =>
                      match net k with
                      | Responded st _ _ => Some st
                      | Threw _ => acc
                      end) todo ls)
        (Some (fold_left (fun _ k => error_of_attempt (net k)) todo le))
        (retries + 1) None.
Proof.
  induction todo as [| k todo IH]; intros le ls tr Hall; simpl;
    [reflexivity |].
  inversion Hall as [| ? ? Hk Hrest]; subst.
  unfold attempt_fails in Hk.
  destruct (net k) as [st txt el | e]; simpl.
  - rewrite Hk. apply IH, Hrest.
  - apply IH, Hrest.
Qed.

(** ... and it made one request per attempt. *)
Lemma attemptLoop_all_fail_requests :
  forall todo le ls tr,
    Forall (fun k => attempt_fails (net k)) todo ->
    requests (snd (loop todo le ls tr)) =
      requests tr + Z.of_nat (List.length todo).
Proof.
  unfold requests.
  induction todo as [| k todo IH]; intros le ls tr Hall; simpl List.length.
  - simpl. lia.
  - inversion Hall as [| ? ? Hk Hrest]; subst.
    unfold attempt_fails in Hk. simpl.
    destruct (net k) as [st txt el | e].
    + rewrite Hk. rewrite (IH _ _ _ Hrest).
      rewrite filter_app, length_app. simpl. lia.
    + rewrite (IH _ _ _ Hrest).
      rewrite !filter_app, !length_app. simpl.
      destruct (k <? retries); simpl; lia.
Qed.

(** The loop sleeps only in its [catch] branch: as long as every attempt
    gets a response, of whatever status, no sleep is added. *)
Lemma attemptLoop_no_sleep_without_exception :
  forall todo le ls tr,
    (forall k, In k todo -> exists st txt el, net k = Responded st txt el) ->
    filter is_sleep (snd (loop todo le ls tr)) = filter is_sleep tr.
Proof.
  induction todo as [| k todo IH]; intros le ls tr Hresp; simpl;
    [reflexivity |].
  destruct (Hresp k (or_introl eq_refl)) as (st & txt & el & ->).
  destruct (ok st); simpl.
  - rewrite filter_app. simpl. apply app_nil_r.
  - rewrite IH by (intros k' Hk'; apply Hresp; right; exact Hk').
    rewrite filter_app. simpl. apply app_nil_r.
Qed.

(** When the last attempt to run is the final one, the run ends with a
    request: nothing is slept after the final attempt. *)
Lemma attemptLoop_ends_with_request :
  forall todo le ls tr,
    todo <> [] -> retries <= last todo 0 ->
    exists tr', snd (loop todo le ls tr) = (tr' ++ [EvGet the_url])%list.
Proof.
  induction todo as [| k todo IH]; intros le ls tr Hne Hlast;
    [contradiction |].
  destruct todo as [| k' rest].
  - simpl in Hlast. simpl.
    destruct (net k) as [st txt el | e]; [destruct (ok st) |]; simpl; eauto.
    destruct (Z.ltb_spec k retries); [lia |].
    exists tr. reflexivity.
  - assert (Hlast' : retries <= last (k' :: rest) 0) by exact Hlast.
    assert (Hne' : k' :: rest <> []) by discriminate.
    change (loop (k :: k' :: rest) le ls tr) with
      (match net k with
       | Responded st statusText elapsed =>
           if ok st
           then (mkResult the_url true (Some st) None (k + 1) (Some elapsed),
                 (tr ++ [EvGet the_url])%list)
           else loop (k' :: rest)
                  ("HTTP " ++ string_of_Z st ++ ": " ++ statusText)%string
                  (Some st) (tr ++ [EvGet the_url])%list
       | Threw e =>
           loop (k' :: rest) (message_or "Unknown error" e) ls
             (tr ++ [EvGet the_url]
                 ++ (if k <? retries then [EvSleep delayMs] else []))%list
       end).
    destruct (net k) as [st txt el | e]; [destruct (ok st) |].
    + simpl. eauto.
    + apply IH; assumption.
    + apply IH; assumption.
Qed.

Lemma attempt_range_succ :
  0 <= retries ->
  attempt_range retries =
    (map Z.of_nat (seq 0 (Z.to_nat retries)) ++ [retries])%list.
Proof.
  intro H. unfold attempt_range.
  replace (Z.to_nat (retries + 1)) with (S (Z.to_nat retries)) by lia.
  rewrite seq_S, map_app. simpl. rewrite Z2Nat.id by lia. reflexivity.
Qed.

Lemma attempt_range_bounds k :
  In k (attempt_range retries) -> 0 <= k <= retries.
Proof.
  unfold attempt_range. rewrite in_map_iff.
  intros (n & <- & Hn). apply in_seq in Hn. lia.
Qed.

Lemma fold_status_last_response :
  forall m,
    fold_left (fun acc k =>
                 match net k with
                 | Responded st _ _ => Some st
                 | Threw _ => acc
                 end) (map Z.of_nat (seq 0 (S m))) None
    = last_response_status net m.
Proof.
  induction m as [| m IH].
  - simpl. destruct (net 0); reflexivity.
  - rewrite seq_S, map_app, fold_left_app. rewrite IH.
    cbn [map fold_left Nat.add last_response_status].
    destruct (net (Z.of_nat (S m))); reflexivity.
Qed.

(** C5.  With [retries >= 0] and all [retries + 1] attempts failing, the
    probe returns [success: false] and [attempts: retries + 1], which is
    the number of requests it made; [error] is the failure description of
    the last attempt and [status] the status recorded last, that of the
    latest attempt that got a response (absent when none did). *)
Theorem executeHealthCheck_all_attempts_fail :
  0 <= retries ->
  (forall k, 0 <= k <= retries -> attempt_fails (net k)) ->
  let run := executeHealthCheck net the_url retries delayMs in
  success (fst run) = false /\
  attempts (fst run) = retries + 1 /\
  requests (snd run) = retries + 1 /\
  error (fst run) = Some (error_of_attempt (net retries)) /\
  status (fst run) = last_response_status net (Z.to_nat retries) /\
  url (fst run) = the_url /\
  responseTime (fst run) = None.
Proof.
  intros Hr Hfail run. subst run. unfold executeHealthCheck.
  assert (Hall : Forall (fun k => attempt_fails (net k))
                   (attempt_range retries)).
  { apply Forall_forall. intros k Hk. apply Hfail, attempt_range_bounds, Hk. }
  fold loop.
  rewrite (attemptLoop_all_fail _ _ _ Hall).
  rewrite (attemptLoop_all_fail_requests _ _ _ Hall).
  cbn [success attempts error status url responseTime fst].
  repeat split.
  - unfold requests, attempt_range. simpl.
    rewrite length_map, length_seq. lia.
  - rewrite (attempt_range_succ Hr), fold_left_app. reflexivity.
  - unfold attempt_range.
    replace (Z.to_nat (retries + 1)) with (S (Z.to_nat retries)) by lia.
    apply fold_status_last_response.
Qed.

(** A probe whose attempts all get a response never sleeps, whatever the
    statuses are. *)
Lemma executeHealthCheck_no_sleep_without_exception :
  (forall k, 0 <= k <= retries ->
             exists st txt el, net k = Responded st txt el) ->
  filter is_sleep (snd (executeHealthCheck net the_url retries delayMs)) = [].
Proof.
  intro Hresp. unfold executeHealthCheck. fold loop.
  rewrite attemptLoop_no_sleep_without_exception; [reflexivity |].
  intros k Hk. apply Hresp, attempt_range_bounds, Hk.
Qed.

(** A probe never sleeps after its final attempt: its last event is a
    request. *)
Lemma executeHealthCheck_ends_with_request :
  0 <= retries ->
  exists tr',
    snd (executeHealthCheck net the_url retries delayMs)
    = (tr' ++ [EvGet the_url])%list.
Proof.
  intro Hr. unfold executeHealthCheck. fold loop.
  apply attemptLoop_ends_with_request.
  - rewrite (attempt_range_succ Hr). intro E.
    apply app_eq_nil in E as [_ E]. discriminate E.
  - rewrite (attempt_range_succ Hr), last_last. lia.
Qed.

End ProbeFacts.

(** C4.  After an attempt that got a 503 response, with one retry left,
    the probe issues the second request at once: there is no sleep between
    the two requests.  After an attempt that raised an exception it does
    sleep for [delayMs] before the second request. *)
Example executeHealthCheck_no_delay_after_http_failure :
  snd (HealthCheck.executeHealthCheck
         (fun _ => HealthCheck.Responded 503 "Service Unavailable" 40)
         "https://gistgeo.ai/" 1 5000)
  = [HealthCheck.EvGet "https://gistgeo.ai/";
     HealthCheck.EvGet "https://gistgeo.ai/"]
  /\
  snd (HealthCheck.executeHealthCheck
         (fun _ => HealthCheck.Threw (Js.ErrorObject "fetch failed"))
         "https://gistgeo.ai/" 1 5000)
  = [HealthCheck.EvGet "https://gistgeo.ai/";
     HealthCheck.EvSleep 5000;
     HealthCheck.EvGet "https://gistgeo.ai/"].
Proof. split; reflexivity. Qed.

Lemma executeHealthCheck_all_attempts_fail_witness :
  let net := fun k : Z =>
    if (k =? 0)%Z
    then HealthCheck.Responded 500 "Internal Server Error" 31
    else HealthCheck.Threw (Js.ErrorObject "The operation timed out") in
  let run := HealthCheck.executeHealthCheck net "https://gistgeo.ai/" 1 5000 in
  HealthCheck.success (fst run) = false /\
  HealthCheck.attempts (fst run) = 2%Z /\
  HealthCheck.requests (snd run) = 2%Z /\
  HealthCheck.error (fst run) = Some "The operation timed out"%string /\
  HealthCheck.status (fst run) = Some 500%Z /\
  HealthCheck.url (fst run) = "https://gistgeo.ai/"%string /\
  HealthCheck.responseTime (fst run) = None.
Proof.
  intros net run.
  apply (@executeHealthCheck_all_attempts_fail net "https://gistgeo.ai/" 1 5000).
  - lia.
  - intros k Hk. unfold net. destruct (k =? 0)%Z; simpl; auto.
Defined.

(** ** The alert *)

Section AlertFacts.
Import Js HealthCheck.
Local Open Scope string_scope.

Lemma append_length (a b : string) :
  String.length (a ++ b) = String.length a + String.length b.
Proof. induction a as [| c a IH]; simpl; [| rewrite IH]; reflexivity. Qed.

Lemma append_cancel_r (s : string) :
  forall a b, a ++ s = b ++ s -> a = b.
Proof.
  induction a as [| c a IH]; destruct b as [| c' b]; simpl; intro H.
  - reflexivity.
  - apply (f_equal String.length) in H. simpl in H.
    rewrite append_length in H. lia.
  - apply (f_equal String.length) in H. simpl in H.
    rewrite append_length in H. lia.
  - injection H as -> H. f_equal. apply IH, H.
Qed.

Lemma truthy_or_else (a b : option string) :
  truthy (or_else a b) = truthy a || truthy b.
Proof. unfold or_else. destruct (truthy a) eqn:E; simpl; auto. Qed.

Lemma filter_failed_nil (results : list HealthCheckResult) :
  filter failed results = [] <-> forall r, In r results -> success r = true.
Proof.
  induction results as [| r l IH]; simpl.
  - split; [intros _ r [] | reflexivity].
  - unfold failed at 1. destruct (success r) eqn:E; simpl.
    + rewrite IH. split.
      * intros H r' [<- | Hr']; auto.
      * intros H r' Hr'. apply H. auto.
    + split; [discriminate |].
      intro H. specialize (H r (or_introl eq_refl)). congruence.
Qed.

Lemma fields_of_length (l : list HealthCheckResult) :
  List.length (flat_map fields_of l) = 4 * List.length l.
Proof. induction l as [| r l IH]; simpl; [| rewrite IH]; lia. Qed.

(** C7.  Without a webhook, neither passed nor configured (an empty text
    counts as none), [sendSlackAlert] answers [false] and makes no request,
    whatever the results are; with a webhook and no failed result it
    answers [true] and makes no request. *)
Theorem sendSlackAlert_skips :
  forall env post timestamp results baseUrl webhookUrl,
    (truthy webhookUrl = false /\ truthy (SLACK_WEBHOOK_URL env) = false ->
     sendSlackAlert env post timestamp results baseUrl webhookUrl
       = (false, [])) /\
    (truthy webhookUrl = true \/ truthy (SLACK_WEBHOOK_URL env) = true ->
     (forall r, In r results -> success r = true) ->
     sendSlackAlert env post timestamp results baseUrl webhookUrl
       = (true, [])).
Proof.
  intros env post timestamp results baseUrl webhookUrl.
  unfold sendSlackAlert. rewrite truthy_or_else. split.
  - intros [-> ->]. reflexivity.
  - intros Hw Hok.
    assert (E : truthy webhookUrl || truthy (SLACK_WEBHOOK_URL env) = true).
    { apply orb_true_iff. exact Hw. }
    rewrite E. simpl.
    rewrite (proj2 (filter_failed_nil results) Hok). reflexivity.
Qed.

(** C9, as the code has it.  [formatHealthAlert] reads the clock: the
    payload is a function of the results, the base URL and the formatted
    time of the call.  Two calls on the same results and base URL agree on
    the summary text and on every block but the last (the footer with the
    time), and give the same payload exactly when their times are the
    same.  The fields of the fourth block are those of the results with
    [success: false], four for each, in order; there are none exactly when
    no result failed. *)
Theorem formatHealthAlert_function_of_arguments_and_clock :
  forall (t1 t2 : string) (results : list HealthCheckResult) (baseUrl : string),
    let a1 := formatHealthAlert t1 results baseUrl in
    let a2 := formatHealthAlert t2 results baseUrl in
    text a1 = text a2 /\
    removelast (blocks a1) = removelast (blocks a2) /\
    (a1 = a2 <-> t1 = t2) /\
    nth_error (blocks a1) 3 =
      Some (mkBlock "section" None
              (Some (flat_map fields_of (filter failed results))) None) /\
    List.length (flat_map fields_of (filter failed results)) =
      4 * List.length (filter failed results) /\
    (flat_map fields_of (filter failed results) = [] <->
     forall r, In r results -> success r = true).
Proof.
  intros t1 t2 results baseUrl a1 a2. subst a1 a2.
  split; [reflexivity |]. split; [reflexivity |]. split; [| split; [| split]].
  - split.
    + intro H. unfold formatHealthAlert in H.
      injection H as H. apply append_cancel_r in H.
      simpl in H. repeat (injection H as _ H). exact H.
    + intros ->. reflexivity.
  - reflexivity.
  - apply fields_of_length.
  - rewrite <- filter_failed_nil.
    destruct (filter failed results) as [| r l]; simpl.
    + split; reflexivity.
    + split; discriminate.
Qed.

(** C9, as stated, does not hold: the same results and base URL, formatted
    at two different minutes, give two different payloads. *)
Lemma formatHealthAlert_not_pure :
  formatHealthAlert "Nov 3, 2024, 12:00 PM" [] "https://gistgeo.ai"
  <> formatHealthAlert "Nov 3, 2024, 12:05 PM" [] "https://gistgeo.ai".
Proof.
  intro H. vm_compute in H. discriminate H.
Qed.

End AlertFacts.

Lemma sendSlackAlert_skips_witness :
  HealthCheck.sendSlackAlert (Js.mkEnv None None None None)
    (fun _ _ => HealthCheck.PostResponded 200) "Nov 3, 2024, 12:00 PM"
    [HealthCheck.mkResult "https://gistgeo.ai/" true (Some 200%Z) None 1
       (Some 25%Z)]
    "https://gistgeo.ai" None
  = (false, [])
  /\
  HealthCheck.sendSlackAlert
    (Js.mkEnv None None (Some "https://hooks.slack.com/services/T0/B0/x"%string)
       None)
    (fun _ _ => HealthCheck.PostResponded 200) "Nov 3, 2024, 12:00 PM"
    [HealthCheck.mkResult "https://gistgeo.ai/" true (Some 200%Z) None 1
       (Some 25%Z)]
    "https://gistgeo.ai" None
  = (true, []).
Proof.
  split.
  - apply (proj1 (sendSlackAlert_skips (Js.mkEnv None None None None)
                    (fun _ _ => HealthCheck.PostResponded 200)
                    "Nov 3, 2024, 12:00 PM"
                    [HealthCheck.mkResult "https://gistgeo.ai/" true
                       (Some 200%Z) None 1 (Some 25%Z)]
                    "https://gistgeo.ai" None)).
    split; reflexivity.
  - apply (proj2 (sendSlackAlert_skips
                    (Js.mkEnv None None
                       (Some "https://hooks.slack.com/services/T0/B0/x"%string)
                       None)
                    (fun _ _ => HealthCheck.PostResponded 200)
                    "Nov 3, 2024, 12:00 PM"
                    [HealthCheck.mkResult "https://gistgeo.ai/" true
                       (Some 200%Z) None 1 (Some 25%Z)]
                    "https://gistgeo.ai" None)).
    + right. reflexivity.
    + intros r [<- | []]. reflexivity.
Defined.

(** ** The health-status endpoint *)

Section HealthRouteFacts.
Import Js HealthRoute.
Local Open Scope string_scope.

Lemma truthy_set_and_non_empty (v : option string) :
  truthy v = true <-> set_and_non_empty v.
Proof.
  unfold truthy, set_and_non_empty. destruct v as [s |].
  - destruct (String.eqb_spec s ""); simpl; split.
    + discriminate.
    + intros (s' & [= <-] & Hs). contradiction.
    + intros _. exists s. auto.
    + reflexivity.
  - split; [discriminate | intros (s & [=] & _)].
Qed.

Lemma convexHealthy_truthy (v : option string) :
  match v with
  | Some s => truthy v && (0 <? String.length s)%nat
  | None => false
  end = truthy v.
Proof.
  destruct v as [[| c s] |]; reflexivity.
Qed.

(** C6, as the code has it.  The endpoint always answers.  When the
    runtime raises an exception inside the [try] block, the answer is a 503
    with status "error", both checks [false] and the message of the
    exception.  Otherwise [checks.convex] is [true] exactly when the store
    URL is set and non-empty, [checks.environment] exactly when the
    environment name is set and non-empty; the answer is "ok" with 200
    exactly when both hold and "error" with 503 otherwise, and the error
    text names each failed check. *)
Theorem health_GET_status :
  forall (env : Env) (w : World),
    let r := GET env w in
    match fault w with
    | Some e =>
        r = mkResponse
              (mkHealth StatusError (isoTime w) (mkChecks false false)
                 (Some (message_or "Unknown error occurred" e)))
              503%Z
    | None =>
        timestamp (body r) = isoTime w /\
        (convex (checks (body r)) = true <->
         set_and_non_empty (NEXT_PUBLIC_CONVEX_URL env)) /\
        (environment (checks (body r)) = true <->
         set_and_non_empty (NODE_ENV env)) /\
        ((status (body r) = StatusOk /\ statusCode r = 200%Z) <->
         (set_and_non_empty (NEXT_PUBLIC_CONVEX_URL env) /\
          set_and_non_empty (NODE_ENV env))) /\
        ((status (body r) = StatusError /\ statusCode r = 503%Z) <->
         ~ (set_and_non_empty (NEXT_PUBLIC_CONVEX_URL env) /\
            set_and_non_empty (NODE_ENV env))) /\
        error (body r) =
          match convex (checks (body r)), environment (checks (body r)) with
          | true, true => None
          | false, true => Some "Convex URL not configured"
          | true, false => Some "Environment not configured"
          | false, false =>
              Some "Convex URL not configured, Environment not configured"
          end
    end.
Proof.
  intros env w r. subst r. unfold GET.
  destruct (fault w) as [e |]; [reflexivity |].
  unfold try_catch. rewrite convexHealthy_truthy.
  rewrite <- !truthy_set_and_non_empty.
  destruct (truthy (NEXT_PUBLIC_CONVEX_URL env));
    destruct (truthy (NODE_ENV env)); cbn;
    repeat split; try reflexivity; try discriminate; try tauto;
    intuition discriminate.
Qed.

(** C6, as stated, does not hold: with the store URL set and non-empty
    and the environment name set, but to the empty text, the endpoint
    answers "error" with 503. *)
Lemma health_GET_empty_environment_name :
  let env := mkEnv None (Some "") None (Some "https://gist.convex.cloud") in
  let r := GET env (mkWorld "2024-11-03T12:00:00.000Z" None) in
  (set_and_non_empty (NEXT_PUBLIC_CONVEX_URL env) /\ NODE_ENV env <> None) /\
  ~ (status (body r) = StatusOk /\ statusCode r = 200%Z) /\
  r = mkResponse
        (mkHealth StatusError "2024-11-03T12:00:00.000Z" (mkChecks true false)
           (Some "Environment not configured"))
        503%Z.
Proof.
  cbn. repeat split.
  - eexists. split; [reflexivity | discriminate].
  - discriminate.
  - intros [H _]. discriminate H.
Qed.

End HealthRouteFacts.

(** ** The scheduled handler *)

Section CronRouteFacts.
Import Js HealthCheck CronRoute.
Local Open Scope string_scope.

Lemma executeHealthCheck_url (n : Z -> fetch_outcome) (u : string) (r d : Z) :
  url (fst (executeHealthCheck n u r d)) = u.
Proof. apply attemptLoop_url. Qed.

(** C1.  When the secret is unset (or empty), or the Authorization header
    is missing, or it is not exactly "Bearer " followed by the secret, the
    handler answers 401 with an error body, and neither probes nor alerts. *)
Theorem cron_GET_unauthorized :
  forall (env : Env) (w : World) (request : Request),
    truthy (CRON_SECRET env) = false \/
    authorization request = None \/
    authorization request <> Some ("Bearer " ++ template (CRON_SECRET env)) ->
    exists msg,
      GET env w request = (mkResponse (ErrorBody msg) 401%Z, no_effects).
Proof.
  intros env w request H. unfold GET.
  destruct (truthy (CRON_SECRET env)) eqn:Es; cbn [negb]; [| eauto].
  destruct (authorization request) as [h |] eqn:Ea; [| cbn; eauto].
  destruct (String.eqb_spec h ("Bearer " ++ template (CRON_SECRET env)))
    as [-> | Hne].
  - destruct H as [H | [H | H]]; try discriminate. contradiction.
  - cbn [negb]. rewrite orb_true_r. eauto.
Qed.

Lemma result_eta (r : HealthCheckResult) :
  mkResult (url r) (success r) (status r) (error r) (attempts r)
    (responseTime r) = r.
Proof. destruct r; reflexivity. Qed.

(** C8.  When the request is authorized the handler answers 200 with a
    summary whose results are the result of the homepage probe followed by
    the result of the probe of [/api/health], one for each probe issued and
    each naming its URL, whatever the probes found; [alertSent] is [true]
    exactly when one of the two failed, and the answer is the same
    whatever becomes of the request to the webhook. *)
Theorem cron_GET_authorized :
  forall (env : Env) (w : World) (request : Request),
    authorized env request ->
    let baseUrl := baseUrl_of env request in
    let home := executeHealthCheck (net w (baseUrl ++ "/"))
                  (baseUrl ++ "/") 1 5000 in
    let api := executeHealthCheck (net w (baseUrl ++ "/api/health"))
                 (baseUrl ++ "/api/health") 1 5000 in
    exists allPassed alertSent,
      fst (GET env w request) =
        mkResponse
          (Summary allPassed (isoTime w) (duration w) [fst home; fst api]
             alertSent)
          200%Z /\
      probing (snd (GET env w request)) = [snd home; snd api] /\
      url (fst home) = baseUrl ++ "/" /\
      url (fst api) = baseUrl ++ "/api/health" /\
      (allPassed = true <->
       success (fst home) = true /\ success (fst api) = true) /\
      (alertSent = true <->
       success (fst home) = false \/ success (fst api) = false) /\
      (forall p, fst (GET env (with_post w p) request)
                 = fst (GET env w request)).
Proof.
  intros env w request (secret & Hs & Hne & Ha) baseUrl home api.
  set (allp := success (fst home) && (success (fst api) && true)).
  assert (G : forall w0,
             net w0 = net w -> isoTime w0 = isoTime w ->
             duration w0 = duration w ->
             GET env w0 request =
               (mkResponse
                  (Summary allp (isoTime w) (duration w) [fst home; fst api]
                     (negb allp))
                  200%Z,
                mkEffects [snd home; snd api]
                  (if negb allp
                   then snd (sendSlackAlert env (post w0) (localTime w0)
                               [fst home; fst api] baseUrl None)
                   else []))).
  { intros w0 En Et Ed. unfold GET. rewrite Hs, Ha. cbn [truthy template].
    destruct (String.eqb_spec secret "") as [E | _]; [contradiction |].
    cbn [negb].
    destruct (String.eqb_spec ("Bearer " ++ secret) "") as [E | _];
      [discriminate E |].
    rewrite String.eqb_refl. cbn [negb orb].
    unfold probe_all. cbn [map fst snd forallb]. rewrite En, Et, Ed.
    rewrite !result_eta. reflexivity. }
  exists allp, (negb allp).
  split; [rewrite (G w) by reflexivity; reflexivity |].
  split; [rewrite (G w) by reflexivity; reflexivity |].
  split; [apply executeHealthCheck_url |].
  split; [apply executeHealthCheck_url |].
  split; [| split].
  - subst allp. destruct (success (fst home)), (success (fst api)); simpl;
      intuition discriminate.
  - subst allp. destruct (success (fst home)), (success (fst api)); simpl;
      intuition discriminate.
  - intro p. rewrite (G w) by reflexivity.
    rewrite (G (with_post w p)) by reflexivity. reflexivity.
Qed.

End CronRouteFacts.

Lemma cron_GET_unauthorized_witness :
  exists msg,
    CronRoute.GET (Js.mkEnv None (Some "production"%string) None None)
      (CronRoute.mkWorld
         (fun _ _ => HealthCheck.Responded 200 "OK" 20)
         (fun _ _ => HealthCheck.PostResponded 200)
         "2024-11-03T12:00:00.000Z" "Nov 3, 2024, 4:00 AM" 45)
      (CronRoute.mkRequest (Some "Bearer undefined"%string)
         (Some "gistgeo.ai"%string))
    = (Js.mkResponse (CronRoute.ErrorBody msg) 401%Z, CronRoute.no_effects).
Proof.
  apply cron_GET_unauthorized. left. reflexivity.
Defined.

Lemma cron_GET_authorized_witness :
  let env := Js.mkEnv (Some "s3cret"%string) (Some "production"%string)
               None None in
  let w := CronRoute.mkWorld
             (fun _ _ => HealthCheck.Responded 503 "Service Unavailable" 20)
             (fun _ _ => HealthCheck.PostThrew Js.OtherValue)
             "2024-11-03T12:00:00.000Z" "Nov 3, 2024, 4:00 AM" 45 in
  let request := CronRoute.mkRequest (Some "Bearer s3cret"%string)
                   (Some "gistgeo.ai"%string) in
  let home := HealthCheck.executeHealthCheck
                (CronRoute.net w "https://gistgeo.ai/")
                "https://gistgeo.ai/" 1 5000 in
  let api := HealthCheck.executeHealthCheck
               (CronRoute.net w "https://gistgeo.ai/api/health")
               "https://gistgeo.ai/api/health" 1 5000 in
  exists allPassed alertSent,
    fst (CronRoute.GET env w request) =
      Js.mkResponse
        (CronRoute.Summary allPassed "2024-11-03T12:00:00.000Z" 45
           [fst home; fst api] alertSent)
        200%Z /\
    CronRoute.probing (snd (CronRoute.GET env w request))
      = [snd home; snd api] /\
    HealthCheck.url (fst home) = "https://gistgeo.ai/"%string /\
    HealthCheck.url (fst api) = "https://gistgeo.ai/api/health"%string /\
    (allPassed = true <->
     HealthCheck.success (fst home) = true /\
     HealthCheck.success (fst api) = true) /\
    (alertSent = true <->
     HealthCheck.success (fst home) = false \/
     HealthCheck.success (fst api) = false) /\
    (forall p, fst (CronRoute.GET env (CronRoute.with_post w p) request)
               = fst (CronRoute.GET env w request)).
Proof.
  intros env w request.
  apply (cron_GET_authorized (env := env) w (request := request)).
  exists "s3cret"%string. repeat split. discriminate.
Defined.

(* ===================================================================== *)
(** * Further properties of the code *)
(* ===================================================================== *)

(** ** The registrar: effects of a call, invariants of the table *)

Section SignupRunFacts.
Import JsRegExp Signups SignupRuns.

Lemma registered_dec (e : jsstring) (db : Db) :
  (exists d, In d (signups db) /\ email d = e) \/ unregistered e db.
Proof.
  destruct (find (fun d => jsstring_eqb (email d) e) (signups db)) eqn:F.
  - left. apply find_some in F as [Hin He].
    apply jsstring_eqb_eq in He. eauto.
  - right. intros d Hd Ed. apply (find_none _ _ F) in Hd.
    apply (proj2 (jsstring_eqb_eq (email d) e)) in Ed. congruence.
Qed.

(** The three ways a call can end. *)
Lemma createSignup_cases :
  forall (e : jsstring) (db : Db),
    (test emailRegex e = false /\
     createSignup e db =
       mkOutcome (inl "Invalid email format"%string) db [])
    \/
    (test emailRegex e = true /\
     (exists d, In d (signups db) /\ email d = e) /\
     createSignup e db =
       mkOutcome (inr (mkResult true true)) db [OpFirstByEmail e])
    \/
    (test emailRegex e = true /\
     unregistered e db /\
     let d := mkDoc (next_id db) e (Some "landing-page"%string) in
     createSignup e db =
       mkOutcome (inr (mkResult true false))
         (mkDb (signups db ++ [d]) (S (next_id db)))
         [OpFirstByEmail e; OpInsert d]).
Proof.
  intros e db. destruct (test emailRegex e) eqn:T.
  - assert (Hv : email_shape e) by (apply emailRegex_shape; exact T).
    destruct (registered_dec e db) as [Hr | Hu].
    + right; left. repeat split; auto. apply createSignup_again; auto.
    + right; right. repeat split; auto. apply createSignup_new; auto.
  - left. split; [reflexivity |].
    unfold createSignup, handler. rewrite T. reflexivity.
Qed.

(** X1.  A call of [createSignup] ends in one of three ways, and the
    submitted address and the table decide which.  The pattern rejects the
    address: the error, no access, the store untouched.  The address is on
    record: [duplicate: true] after one lookup, the store untouched.
    Otherwise: [duplicate: false] after one lookup followed by one
    insertion, of a document with the next free identifier, at the end of
    the table. *)
Theorem createSignup_three_ways :
  forall (e : jsstring) (db : Db),
    (test emailRegex e = false /\
     createSignup e db =
       mkOutcome (inl "Invalid email format"%string) db [])
    \/
    (test emailRegex e = true /\
     (exists d, In d (signups db) /\ email d = e) /\
     createSignup e db =
       mkOutcome (inr (mkResult true true)) db [OpFirstByEmail e])
    \/
    (test emailRegex e = true /\
     unregistered e db /\
     let d := mkDoc (next_id db) e (Some "landing-page"%string) in
     createSignup e db =
       mkOutcome (inr (mkResult true false))
         (mkDb (signups db ++ [d]) (S (next_id db)))
         [OpFirstByEmail e; OpInsert d]).
Proof.
  intros e db.
  destruct (createSignup_cases e db) as [H | [H | H]].
  - left. exact H.
  - right. left. exact H.
  - right. right. exact H.
Qed.

(** The addresses on record after a call. *)
Lemma emails_after (e : jsstring) (db : Db) :
  (emails (db_after (createSignup e db)) = emails db /\
   (test emailRegex e = false \/ In e (emails db)))
  \/
  (emails (db_after (createSignup e db)) = emails db ++ [e] /\
   test emailRegex e = true /\ ~ In e (emails db)).
Proof.
  destruct (createSignup_cases e db)
    as [[T ->] | [(T & (d & Hd & Ed) & ->) | (T & Hu & ->)]]; cbn.
  - left. auto.
  - left. split; [reflexivity |]. right.
    unfold emails. rewrite <- Ed. apply in_map. exact Hd.
  - right. unfold emails. cbn. rewrite map_app. cbn.
    repeat split; auto.
    intro Hin. apply in_map_iff in Hin as (d & Ed & Hd).
    exact (Hu d Hd Ed).
Qed.

(** X2.  The registrar keeps the addresses of the table pairwise
    different: a table without a repeated address has none after a call,
    whatever is submitted. *)
Theorem createSignup_keeps_emails_unique :
  forall (e : jsstring) (db : Db),
    NoDup (emails db) ->
    NoDup (emails (db_after (createSignup e db))).
Proof.
  intros e db Hnd.
  destruct (emails_after e db) as [[-> _] | (-> & _ & Hnew)]; [exact Hnd |].
  apply NoDup_app; repeat split; auto.
  - constructor; [intros [] | constructor].
  - intros x Hx [<- | []]. exact (Hnew Hx).
Qed.


(** X4.  Submitting an address a second time changes nothing, whatever
    the address and the store: the second of two calls in a row leaves the
    store as the first left it and inserts nothing. *)
Theorem createSignup_idempotent :
  forall (e : jsstring) (db : Db),
    let o1 := createSignup e db in
    let o2 := createSignup e (db_after o1) in
    db_after o2 = db_after o1 /\ inserts (accesses o2) = 0.
Proof.
  intros e db o1 o2. subst o1 o2.
  destruct (emails_after e db) as [[E H] | (E & T & _)].
  - destruct (createSignup_cases e db)
      as [[T ->] | [(T & Hr & ->) | (T & Hu & Eo)]]; cbn.
    + unfold createSignup, handler. rewrite T. cbn. auto.
    + rewrite (createSignup_again db (proj1 (emailRegex_shape e) T) Hr).
      cbn. auto.
    + exfalso. rewrite Eo in E. unfold emails in E. cbn in E.
      rewrite map_app in E. apply (f_equal (@List.length _)) in E.
      rewrite length_app in E. cbn in E. lia.
  - assert (Hr : exists d, In d (signups (db_after (createSignup e db)))
                           /\ email d = e).
    { assert (Hin : In e (emails (db_after (createSignup e db)))).
      { rewrite E. apply in_or_app. right. left. reflexivity. }
      apply in_map_iff in Hin as (d & Ed & Hd). eauto. }
    rewrite (createSignup_again _ (proj1 (emailRegex_shape e) T) Hr).
    cbn. auto.
Qed.

Lemma submit_all_emails :
  forall (es : list jsstring) (db : Db),
    NoDup (emails db) ->
    NoDup (emails (submit_all es db)) /\
    (forall x, In x (emails (submit_all es db)) <->
               In x (emails db) \/ (In x es /\ test emailRegex x = true)).
Proof.
  induction es as [| e es IH]; intros db Hnd; cbn.
  - split; [exact Hnd |]. intro x. tauto.
  - assert (Hstep : NoDup (emails (db_after (createSignup e db)))).
    { destruct (emails_after e db) as [[-> _] | (-> & _ & Hnew)];
        [exact Hnd |].
      apply NoDup_app; repeat split; auto.
      - constructor; [intros [] | constructor].
      - intros x Hx [<- | []]. exact (Hnew Hx). }
    destruct (IH (db_after (createSignup e db)) Hstep) as [Hnd' Hin'].
    split; [exact Hnd' |].
    intro x. unfold submit_all in Hin'. rewrite Hin'.
    destruct (emails_after e db) as [[-> H] | (-> & T & Hnew)].
    + split.
      * intros [Hx | [Hx Tx]]; auto.
      * intros [Hx | [[<- | Hx] Tx]]; auto.
        destruct H as [H | H]; [congruence | auto].
    + rewrite in_app_iff. cbn. split.
      * intros [[Hx | [<- | []]] | [Hx Tx]]; auto.
      * intros [Hx | [[<- | Hx] Tx]]; auto.
Qed.

(** X5.  Starting from an empty table, after any sequence of submissions
    the table holds each submitted address that the pattern accepts, once,
    and nothing else. *)
Theorem submit_all_from_empty :
  forall (es : list jsstring) (n : nat),
    let db := submit_all es (mkDb [] n) in
    NoDup (emails db) /\
    (forall x, In x (emails db) <-> In x es /\ test emailRegex x = true) /\
    (forall d, In d (signups db) -> source d = Some "landing-page"%string).
Proof.
  intros es n db. subst db.
  destruct (@submit_all_emails es (mkDb [] n)) as [Hnd Hin];
    [constructor |].
  split; [exact Hnd |]. split.
  - intro x. rewrite Hin. cbn. tauto.
  - assert (G : forall es db,
               (forall d, In d (signups db) ->
                          source d = Some "landing-page"%string) ->
               forall d, In d (signups (submit_all es db)) ->
                         source d = Some "landing-page"%string).
    { clear. induction es as [| e es IH]; intros db H; cbn; [exact H |].
      apply IH. intros d Hd.
      destruct (createSignup_cases e db)
        as [[T E] | [(T & _ & E) | (T & Hu & E)]];
        rewrite E in Hd; cbn in Hd; auto.
      apply in_app_or in Hd as [Hd | [<- | []]]; auto. }
    apply G. intros d [].
Qed.

(** X6.  What the pattern demands of an address: exactly one "@", no
    white space at all, and at least five code units. *)
Theorem emailRegex_necessary :
  forall e : jsstring,
    test emailRegex e = true ->
    count_occ N.eq_dec e AT = 1 /\
    Forall (fun c => isWhiteSpace c = false) e /\
    5 <= List.length e.
Proof.
  intros e T. apply emailRegex_shape in T
    as (a & b & c & -> & [Ha Fa] & [Hb Fb] & [Hc Fc]).
  assert (P : forall s, Forall (fun x => notSpaceNorAt x = true) s ->
                        count_occ N.eq_dec s AT = 0 /\
                        Forall (fun x => isWhiteSpace x = false) s).
  { induction 1 as [| x s Hx _ [IH1 IH2]]; [split; [reflexivity | constructor] |].
    unfold notSpaceNorAt in Hx. apply negb_true_iff, orb_false_iff in Hx
      as [Hw Hat].
    split; [| constructor; assumption].
    cbn. destruct (N.eq_dec x AT) as [-> | _]; [| exact IH1].
    rewrite N.eqb_refl in Hat. discriminate. }
  destruct (P a Fa) as [Ca Wa], (P b Fb) as [Cb Wb], (P c Fc) as [Cc Wc].
  repeat split.
  - rewrite !count_occ_app. unfold code_unit in *.
    rewrite Ca, Cb, Cc. reflexivity.
  - repeat (apply Forall_app; split); auto; repeat constructor.
  - rewrite !length_app. cbn.
    destruct a; [contradiction |]. destruct b; [contradiction |].
    destruct c; [contradiction |]. cbn. lia.
Qed.

Lemma createSignup_keeps_emails_unique_witness :
  NoDup (emails (db_after (createSignup (of_string "ann@example.com")
                             (mkDb [mkDoc 0 (of_string "bob@example.com")
                                      (Some "landing-page"%string)] 1)))).
Proof.
  apply createSignup_keeps_emails_unique.
  cbn. constructor; [intros [] | constructor].
Defined.


Lemma emailRegex_necessary_witness :
  count_occ N.eq_dec (of_string "a@b.c") AT = 1 /\
  Forall (fun c => isWhiteSpace c = false) (of_string "a@b.c") /\
  5 <= List.length (of_string "a@b.c").
Proof.
  apply emailRegex_necessary. vm_compute. reflexivity.
Defined.

End SignupRunFacts.

(** ** The probe: success, bounds, degenerate retries *)

Section ProbeRunFacts.
Import Js HealthCheck ProbeRuns.
Local Open Scope Z_scope.

Variable net : Z -> fetch_outcome.
Variables (the_url : string) (retries delayMs : Z).

Let loop := attemptLoop net the_url retries delayMs.

(** The loop stops at the first attempt that gets a 2xx response. *)
Lemma attemptLoop_first_success :
  forall before k after st txt el le ls tr,
    Forall (fun j => attempt_fails (net j)) before ->
    net k = Responded st txt el -> ok st = true ->
    fst (loop (before ++ k :: after) le ls tr) =
      mkResult the_url true (Some st) None (k + 1) (Some el) /\
    requests (snd (loop (before ++ k :: after) le ls tr)) =
      requests tr + Z.of_nat (List.length before) + 1 /\
    exists tr',
      snd (loop (before ++ k :: after) le ls tr) = (tr' ++ [EvGet the_url])%list.
Proof.
  induction before as [| j before IH];
    intros k after st txt el le ls tr Hfail Hk Hok.
  - cbn. rewrite Hk, Hok. cbn. repeat split; eauto.
    unfold requests. rewrite filter_app, length_app. cbn. lia.
  - inversion Hfail as [| ? ? Hj Hrest]; subst.
    unfold attempt_fails in Hj. cbn [app]. cbn [loop attemptLoop].
    unfold loop. cbn [attemptLoop]. fold loop.
    destruct (net j) as [st' txt' el' | e].
    + rewrite Hj.
      destruct (IH k after st txt el
                  ("HTTP " ++ string_of_Z st' ++ ": " ++ txt')%string
                  (Some st') (tr ++ [EvGet the_url])%list Hrest Hk Hok)
        as (E1 & E2 & E3).
      split; [exact E1 |]. split; [| exact E3].
      rewrite E2. unfold requests. rewrite filter_app, length_app.
      cbn [List.length filter is_get]. cbn [List.length]. lia.
    + destruct (IH k after st txt el (message_or "Unknown error" e) ls
                  (tr ++ [EvGet the_url]
                      ++ (if j <? retries then [EvSleep delayMs] else []))%list
                  Hrest Hk Hok)
        as (E1 & E2 & E3).
      split; [exact E1 |]. split; [| exact E3].
      rewrite E2. unfold requests. rewrite !filter_app, !length_app.
      destruct (j <? retries); cbn; lia.
Qed.

Lemma attempt_range_split k :
  0 <= k <= retries ->
  exists after,
    attempt_range retries =
      (map Z.of_nat (seq 0 (Z.to_nat k)) ++ k :: after)%list.
Proof.
  intro Hk. unfold attempt_range.
  replace (Z.to_nat (retries + 1))
    with (Z.to_nat k + S (Z.to_nat (retries - k)))%nat by lia.
  rewrite seq_app, map_app. cbn [seq map Nat.add].
  rewrite Z2Nat.id by lia. eexists. reflexivity.
Qed.

(** X7.  When attempt [k] (counted from 0, at most [retries]) is the first
    to get a 2xx response, the probe stops there: the result is a success
    with that status and response time, no error, [attempts = k + 1]; it
    made [k + 1] requests, the last event being the request that
    succeeded. *)
Theorem executeHealthCheck_first_success :
  forall k st txt el,
    0 <= k <= retries ->
    (forall j, 0 <= j < k -> attempt_fails (net j)) ->
    net k = Responded st txt el -> ok st = true ->
    let run := executeHealthCheck net the_url retries delayMs in
    fst run = mkResult the_url true (Some st) None (k + 1) (Some el) /\
    requests (snd run) = k + 1 /\
    exists tr', snd run = (tr' ++ [EvGet the_url])%list.
Proof.
  intros k st txt el Hk Hfail Hnet Hok run. subst run.
  unfold executeHealthCheck.
  destruct (attempt_range_split Hk) as [after ->].
  assert (Hbefore : Forall (fun j => attempt_fails (net j))
                      (map Z.of_nat (seq 0 (Z.to_nat k)))).
  { apply Forall_forall. intros j Hj. apply in_map_iff in Hj as (n & <- & Hn).
    apply in_seq in Hn. apply Hfail. lia. }
  destruct (attemptLoop_first_success after "" None [] Hbefore Hnet Hok)
    as (E1 & E2 & E3).
  fold loop. split; [exact E1 |]. split; [| exact E3].
  rewrite E2. unfold requests. cbn. rewrite length_map, length_seq. lia.
Qed.




(** The events the loop adds, and how many. *)
Lemma attemptLoop_trace_bounds :
  forall todo le ls tr,
    Forall (probe_event the_url delayMs) tr ->
    let tr' := snd (loop todo le ls tr) in
    Forall (probe_event the_url delayMs) tr' /\
    requests tr <= requests tr' <= requests tr + Z.of_nat (List.length todo) /\
    sleeps tr <= sleeps tr' <=
      sleeps tr + Z.of_nat (List.length (filter (fun k => k <? retries) todo)).
Proof.
  unfold requests, sleeps, probe_event.
  induction todo as [| k todo IH]; intros le ls tr Htr; cbn zeta.
  - cbn. repeat split; auto; lia.
  - unfold loop. cbn [attemptLoop]. fold loop.
    assert (Hget : Forall (fun ev => ev = EvGet the_url \/ ev = EvSleep delayMs)
                     (tr ++ [EvGet the_url])%list).
    { apply Forall_app; split; auto. }
    destruct (net k) as [st txt el | e].
    + destruct (ok st).
      * cbn [snd]. rewrite !filter_app, !length_app. cbn.
        repeat split; auto; lia.
      * destruct (IH ("HTTP " ++ string_of_Z st ++ ": " ++ txt)%string
                    (Some st) _ Hget) as (F & R & S).
        rewrite !filter_app, !length_app in R, S.
        cbn [filter is_get is_sleep List.length] in R, S.
        cbn [filter List.length].
        repeat split; auto; try lia;
          destruct (k <? retries); cbn [List.length]; lia.
    + assert (Hsl : Forall (fun ev => ev = EvGet the_url \/ ev = EvSleep delayMs)
                      (tr ++ [EvGet the_url]
                          ++ (if k <? retries then [EvSleep delayMs] else []))%list).
      { apply Forall_app; split; auto.
        destruct (k <? retries); cbn [app].
        - constructor; [left; reflexivity |].
          constructor; [right; reflexivity | constructor].
        - constructor; [left; reflexivity | constructor]. }
      destruct (IH (message_or "Unknown error" e) ls _ Hsl) as (F & R & S).
      rewrite !filter_app, !length_app in R, S.
      cbn [filter List.length].
      destruct (k <? retries);
        cbn [filter is_get is_sleep List.length] in R, S; cbn [List.length];
        repeat split; auto; lia.
Qed.

Lemma attempt_range_before_last :
  Z.of_nat (List.length (filter (fun k => k <? retries) (attempt_range retries)))
  <= Z.max 0 retries.
Proof.
  destruct (Z.ltb_spec retries 0) as [Hneg | Hpos].
  - unfold attempt_range.
    replace (Z.to_nat (retries + 1)) with 0%nat by lia. cbn. lia.
  - rewrite (attempt_range_succ Hpos).
    rewrite filter_app, length_app. cbn [filter].
    rewrite Z.ltb_irrefl. cbn [List.length].
    pose proof (filter_length_le (fun k => k <? retries)
                  (map Z.of_nat (seq 0 (Z.to_nat retries)))) as Hle.
    rewrite length_map, length_seq in Hle. lia.
Qed.

(** X10.  A probe only ever requests its own URL and sleeps for
    [delayMs]; it makes at most [retries + 1] requests and sleeps at most
    [retries] times (none of either when [retries] is negative). *)
Theorem executeHealthCheck_trace_bounds :
  let tr := snd (executeHealthCheck net the_url retries delayMs) in
  Forall (probe_event the_url delayMs) tr /\
  0 <= requests tr <= Z.max 0 (retries + 1) /\
  0 <= sleeps tr <= Z.max 0 retries.
Proof.
  intro tr. subst tr. unfold executeHealthCheck. fold loop.
  destruct (attemptLoop_trace_bounds (attempt_range retries) "" None
              (Forall_nil _)) as (F & R & S).
  pose proof attempt_range_before_last as B.
  split; [exact F |].
  assert (L : Z.of_nat (List.length (attempt_range retries))
              = Z.max 0 (retries + 1)).
  { unfold attempt_range. rewrite length_map, length_seq. lia. }
  unfold requests, sleeps in *. cbn [filter List.length] in R, S.
  split; lia.
Qed.

Lemma attemptLoop_all_fail_sleeps :
  forall todo le ls tr,
    Forall (fun k => attempt_fails (net k)) todo ->
    sleeps (snd (loop todo le ls tr)) =
      sleeps tr
      + Z.of_nat (List.length
                    (filter (fun k => threw (net k) && (k <? retries)) todo)).
Proof.
  unfold sleeps.
  induction todo as [| k todo IH]; intros le ls tr Hall.
  - cbn. lia.
  - inversion Hall as [| ? ? Hk Hrest]; subst.
    unfold attempt_fails in Hk.
    unfold loop. cbn [attemptLoop filter]. fold loop.
    destruct (net k) as [st txt el | e]; cbn [threw andb].
    + rewrite Hk, (IH _ _ _ Hrest), filter_app, length_app.
      cbn [filter is_sleep List.length]. lia.
    + rewrite (IH _ _ _ Hrest), !filter_app, !length_app.
      destruct (k <? retries); cbn [filter is_sleep List.length app]; lia.
Qed.

(** X25.  How long a failed probe sleeps.  With [retries >= 0] and every
    attempt failing, the probe sleeps once for each attempt before the last
    that ended with an exception, and not at all for the attempts that got
    a response. *)
Theorem executeHealthCheck_all_fail_sleeps :
  0 <= retries ->
  (forall k, 0 <= k <= retries -> attempt_fails (net k)) ->
  sleeps (snd (executeHealthCheck net the_url retries delayMs)) =
    Z.of_nat (List.length
                (filter (fun k => threw (net k))
                   (map Z.of_nat (seq 0 (Z.to_nat retries))))).
Proof.
  intros Hr Hfail. unfold executeHealthCheck. fold loop.
  rewrite attemptLoop_all_fail_sleeps.
  - rewrite (attempt_range_succ Hr), filter_app, length_app.
    cbn [filter]. rewrite Z.ltb_irrefl, andb_false_r. cbn [List.length].
    rewrite (filter_ext_in (fun k => threw (net k) && (k <? retries))
               (fun k => threw (net k))).
    + unfold sleeps. cbn. lia.
    + intros k Hk. apply in_map_iff in Hk as (n & <- & Hn).
      apply in_seq in Hn.
      destruct (Z.ltb_spec (Z.of_nat n) retries); [| lia].
      apply andb_true_r.
  - apply Forall_forall. intros k Hk.
    apply Hfail. exact (attempt_range_bounds _ _ Hk).
Qed.

End ProbeRunFacts.

Lemma executeHealthCheck_all_fail_sleeps_witness :
  ProbeRuns.sleeps
    (snd (HealthCheck.executeHealthCheck
            (fun k : Z =>
               if (k =? 1)%Z
               then HealthCheck.Threw (Js.ErrorObject "fetch failed")
               else HealthCheck.Responded 502 "Bad Gateway" 12)
            "https://gistgeo.ai/" 2 5000))
  = Z.of_nat 1.
Proof.
  apply (@executeHealthCheck_all_fail_sleeps
           (fun k : Z =>
              if (k =? 1)%Z
              then HealthCheck.Threw (Js.ErrorObject "fetch failed")
              else HealthCheck.Responded 502 "Bad Gateway" 12)
           "https://gistgeo.ai/" 2 5000).
  - lia.
  - intros k Hk. cbn beta. destruct (k =? 1)%Z; cbn; auto.
Defined.

Lemma executeHealthCheck_first_success_witness :
  let net := fun k : Z =>
    if (k =? 0)%Z
    then HealthCheck.Threw (Js.ErrorObject "fetch failed")
    else HealthCheck.Responded 200 "OK" 87 in
  let run := HealthCheck.executeHealthCheck net "https://gistgeo.ai/" 1 5000 in
  fst run = HealthCheck.mkResult "https://gistgeo.ai/" true (Some 200%Z) None
              (1 + 1) (Some 87%Z) /\
  HealthCheck.requests (snd run) = (1 + 1)%Z /\
  exists tr', snd run = tr' ++ [HealthCheck.EvGet "https://gistgeo.ai/"].
Proof.
  intros net run.
  apply (@executeHealthCheck_first_success net "https://gistgeo.ai/" 1 5000
           1%Z 200%Z "OK"%string 87%Z).
  - lia.
  - intros j Hj. assert (j = 0%Z) as -> by lia. exact I.
  - reflexivity.
  - reflexivity.
Defined.


(** ** The alert: what is sent, and when *)

Section AlertRunFacts.
Import Js HealthCheck.
Local Open Scope string_scope.

Lemma filter_failed_idempotent (results : list HealthCheckResult) :
  filter failed (filter failed results) = filter failed results.
Proof.
  induction results as [| r l IH]; cbn; [reflexivity |].
  destruct (failed r) eqn:E; cbn; rewrite ?E, IH; reflexivity.
Qed.

Lemma no_failed_length (results : list HealthCheckResult) :
  (List.length (filter failed results) =? 0)%nat
  = negb (existsb failed results).
Proof.
  induction results as [| r l IH]; cbn; [reflexivity |].
  destruct (failed r); cbn; [reflexivity | exact IH].
Qed.

Lemma all_success_no_failed (results : list HealthCheckResult) :
  forallb success results = negb (existsb failed results).
Proof.
  induction results as [| r l IH]; cbn; [reflexivity |].
  unfold failed at 1. destruct (success r); cbn; [exact IH | reflexivity].
Qed.

(** X11.  The payload does not depend on the results that succeeded:
    dropping them from the list gives the same payload.  The payload always
    has six blocks. *)
Theorem formatHealthAlert_ignores_successes :
  forall (timestamp : string) (results : list HealthCheckResult)
         (baseUrl : string),
    formatHealthAlert timestamp results baseUrl
    = formatHealthAlert timestamp (filter failed results) baseUrl /\
    List.length (blocks (formatHealthAlert timestamp results baseUrl)) = 6%nat.
Proof.
  intros timestamp results baseUrl. unfold formatHealthAlert.
  rewrite filter_failed_idempotent. split; reflexivity.
Qed.

(** How [sendSlackAlert] ends, in full. *)
Lemma sendSlackAlert_run :
  forall env post timestamp results baseUrl webhookUrl,
    let target := or_string webhookUrl (template (SLACK_WEBHOOK_URL env)) in
    let payload := formatHealthAlert timestamp results baseUrl in
    let available := truthy webhookUrl || truthy (SLACK_WEBHOOK_URL env) in
    sendSlackAlert env post timestamp results baseUrl webhookUrl =
      (available &&
         (forallb success results
          || match post target payload with
             | PostResponded st => ok st
             | PostThrew _ => false
             end),
       if available && existsb failed results
       then [EvPost target payload] else []).
Proof.
  intros env post timestamp results baseUrl webhookUrl target payload available.
  subst target payload available.
  unfold sendSlackAlert. rewrite truthy_or_else, no_failed_length,
    all_success_no_failed.
  assert (T : truthy webhookUrl || truthy (SLACK_WEBHOOK_URL env) = true ->
              template (or_else webhookUrl (SLACK_WEBHOOK_URL env))
              = or_string webhookUrl (template (SLACK_WEBHOOK_URL env))).
  { unfold or_else, truthy, or_string, template.
    destruct webhookUrl as [s |]; [destruct (s =? ""); cbn |]; auto. }
  destruct (truthy webhookUrl || truthy (SLACK_WEBHOOK_URL env)) eqn:A;
    cbn [negb andb]; [| reflexivity].
  rewrite (T eq_refl).
  destruct (existsb failed results); cbn [negb orb]; [| reflexivity].
  destruct (post _ _) as [st | e]; [destruct (ok st) |]; reflexivity.
Qed.

(** X12.  [sendSlackAlert] makes at most one request: a POST of the
    payload formatted from all the results, to the webhook passed as
    argument or, when none (or an empty one) is passed, to the configured
    one; and it makes it exactly when a webhook is available and some
    result failed.  It answers [true] exactly when a webhook is available
    and either no result failed or the POST got a 2xx response. *)
Theorem sendSlackAlert_outcome :
  forall env post timestamp results baseUrl webhookUrl,
    let run := sendSlackAlert env post timestamp results baseUrl webhookUrl in
    let target := or_string webhookUrl (template (SLACK_WEBHOOK_URL env)) in
    let payload := formatHealthAlert timestamp results baseUrl in
    let available :=
      truthy webhookUrl = true \/ truthy (SLACK_WEBHOOK_URL env) = true in
    let some_failed := exists r, In r results /\ success r = false in
    (snd run = [EvPost target payload] \/ snd run = []) /\
    (snd run = [EvPost target payload] <-> available /\ some_failed) /\
    (fst run = true <->
     available /\
     (~ some_failed \/
      exists st, post target payload = PostResponded st /\ ok st = true)).
Proof.
  intros env post timestamp results baseUrl webhookUrl
         run target payload available some_failed.
  subst run. rewrite sendSlackAlert_run. fold target. fold payload.
  cbn [fst snd].
  assert (HA : truthy webhookUrl || truthy (SLACK_WEBHOOK_URL env) = true
               <-> available).
  { subst available. apply orb_true_iff. }
  assert (HF : existsb failed results = true <-> some_failed).
  { subst some_failed. rewrite existsb_exists. unfold failed.
    split; intros (r & Hr & E); exists r; split; auto;
      destruct (success r); cbn in *; congruence. }
  rewrite all_success_no_failed.
  destruct (truthy webhookUrl || truthy (SLACK_WEBHOOK_URL env));
    destruct (existsb failed results); cbn [andb orb negb].
  - split; [left; reflexivity |]. split.
    + split; [intros _ | reflexivity]. split; [apply HA | apply HF]; reflexivity.
    + split.
      * intro P. split; [apply HA; reflexivity |]. right.
        destruct (post target payload) as [st | e]; [| discriminate].
        exists st. auto.
      * intros [_ [Hn | (st & -> & Hok)]]; [| exact Hok].
        exfalso. apply Hn, HF. reflexivity.
  - split; [right; reflexivity |]. split.
    + split; [discriminate |]. intros [_ Hs]. apply HF in Hs. discriminate.
    + split; [| reflexivity]. intros _. split; [apply HA; reflexivity |].
      left. intro Hs. apply HF in Hs. discriminate.
  - split; [right; reflexivity |]. split.
    + split; [discriminate |]. intros [Ha _]. apply HA in Ha. discriminate.
    + split; [discriminate |]. intros [Ha _]. apply HA in Ha. discriminate.
  - split; [right; reflexivity |]. split.
    + split; [discriminate |]. intros [Ha _]. apply HA in Ha. discriminate.
    + split; [discriminate |]. intros [Ha _]. apply HA in Ha. discriminate.
Qed.

End AlertRunFacts.

(** ** The two handlers: who gets in, what a run costs, how they meet *)

Section HealthRouteRunFacts.
Import Js.
Local Open Scope string_scope.

(** The health-status endpoint is healthy when nothing was thrown and
    both variables hold a non-empty text. *)
Lemma health_GET_response (env : Env) (w : HealthRoute.World) :
  let healthy :=
    match HealthRoute.fault w with
    | Some _ => false
    | None => truthy (NEXT_PUBLIC_CONVEX_URL env) && truthy (NODE_ENV env)
    end in
  statusCode (HealthRoute.GET env w) = (if healthy then 200 else 503)%Z /\
  HealthRoute.status (body (HealthRoute.GET env w))
    = (if healthy then HealthRoute.StatusOk else HealthRoute.StatusError) /\
  (HealthRoute.error (body (HealthRoute.GET env w)) = None <-> healthy = true).
Proof.
  unfold HealthRoute.GET. destruct (HealthRoute.fault w) as [e |]; cbn zeta.
  - cbn. repeat split; discriminate.
  - unfold HealthRoute.try_catch. rewrite convexHealthy_truthy.
    destruct (truthy (NEXT_PUBLIC_CONVEX_URL env));
      destruct (truthy (NODE_ENV env)); cbn;
      repeat split; intros; try reflexivity; discriminate.
Qed.

(** X16.  The HTTP code and the body of the health-status endpoint always
    agree: the code is 200 or 503; it is 200 exactly when the body says
    "ok", and exactly when the body has no [error] text. *)
Theorem health_GET_code_matches_body :
  forall (env : Env) (w : HealthRoute.World),
    let r := HealthRoute.GET env w in
    (statusCode r = 200%Z \/ statusCode r = 503%Z) /\
    (statusCode r = 200%Z <->
     HealthRoute.status (body r) = HealthRoute.StatusOk) /\
    (statusCode r = 200%Z <-> HealthRoute.error (body r) = None).
Proof.
  intros env w r. subst r.
  destruct (health_GET_response env w) as (C & S & E).
  rewrite C, S, E.
  destruct (match HealthRoute.fault w with
            | Some _ => false
            | None => truthy (NEXT_PUBLIC_CONVEX_URL env)
                      && truthy (NODE_ENV env)
            end); repeat split; auto; discriminate.
Qed.

End HealthRouteRunFacts.

Section CronRunFacts.
Import Js HealthCheck ProbeRuns CronRoute.
Local Open Scope string_scope.

Lemma authorized_dec (env : Env) (request : Request) :
  authorized env request <->
  truthy (CRON_SECRET env) = true /\
  authorization request = Some ("Bearer " ++ template (CRON_SECRET env)).
Proof.
  unfold authorized, truthy, template. split.
  - intros (s & -> & Hne & ->). split; [| reflexivity].
    destruct (String.eqb_spec s ""); [contradiction | reflexivity].
  - intros [Ht Ha]. destruct (CRON_SECRET env) as [s |]; [| discriminate].
    exists s. repeat split; auto.
    intros ->. discriminate Ht.
Qed.

(** A run for an authorized request, in full. *)
Lemma cron_GET_run (env : Env) (w : World) (request : Request) :
  authorized env request ->
  let baseUrl := baseUrl_of env request in
  let home := executeHealthCheck (net w (baseUrl ++ "/"))
                (baseUrl ++ "/") 1 5000 in
  let api := executeHealthCheck (net w (baseUrl ++ "/api/health"))
               (baseUrl ++ "/api/health") 1 5000 in
  let allPassed := success (fst home) && success (fst api) in
  GET env w request =
    (mkResponse
       (Summary allPassed (isoTime w) (duration w) [fst home; fst api]
          (negb allPassed))
       200%Z,
     mkEffects [snd home; snd api]
       (if negb allPassed
        then snd (sendSlackAlert env (post w) (localTime w)
                    [fst home; fst api] baseUrl None)
        else [])).
Proof.
  intros (secret & Hs & Hne & Ha) baseUrl home api allPassed.
  unfold GET. rewrite Hs, Ha. cbn [truthy template].
  destruct (String.eqb_spec secret "") as [E | _]; [contradiction |].
  cbn [negb].
  destruct (String.eqb_spec ("Bearer " ++ secret) "") as [E | _];
    [discriminate E |].
  rewrite String.eqb_refl. cbn [negb orb].
  unfold probe_all. cbn [map fst snd forallb].
  rewrite !result_eta, andb_true_r. reflexivity.
Qed.

(** X13.  The handler answers 200 exactly to authorized requests.  Every
    other request gets a 401 and causes no probe and no alert; the error
    text is "Cron secret not configured" when the secret is unset or
    empty, whatever the header, and "Unauthorized" otherwise. *)
Theorem cron_GET_status :
  forall (env : Env) (w : World) (request : Request),
    (authorized env request /\
     statusCode (fst (GET env w request)) = 200%Z)
    \/
    (~ authorized env request /\
     GET env w request =
       (mkResponse
          (ErrorBody (if truthy (CRON_SECRET env)
                      then "Unauthorized"
                      else "Cron secret not configured"))
          401%Z,
        no_effects)).
Proof.
  intros env w request.
  destruct (truthy (CRON_SECRET env)) eqn:Es.
  - destruct (authorization request) as [h |] eqn:Ea.
    + destruct (String.eqb_spec h ("Bearer " ++ template (CRON_SECRET env)))
        as [-> | Hne].
      * left. assert (A : authorized env request)
          by (apply authorized_dec; auto).
        split; [exact A |]. rewrite (cron_GET_run w A). reflexivity.
      * right. split.
        -- intro A. apply authorized_dec in A as [_ A]. congruence.
        -- unfold GET. rewrite Es, Ea. cbn [negb].
           destruct (String.eqb_spec h
                       ("Bearer " ++ template (CRON_SECRET env)));
             [contradiction |].
           cbn [negb]. rewrite orb_true_r. reflexivity.
    + right. split.
      * intro A. apply authorized_dec in A as [_ A]. congruence.
      * unfold GET. rewrite Es, Ea. reflexivity.
  - right. split.
    + intro A. apply authorized_dec in A as [A _]. congruence.
    + unfold GET. rewrite Es. reflexivity.
Qed.

(** X14.  For an authorized request, alerting consists of one POST of the
    payload for the two results to the configured webhook when a probe
    failed and a webhook is configured, and of nothing otherwise.  The
    summary says [alertSent: true] whenever a probe failed, also when no
    webhook is configured and nothing was sent. *)
Theorem cron_GET_alerting :
  forall (env : Env) (w : World) (request : Request),
    authorized env request ->
    let baseUrl := baseUrl_of env request in
    let home := fst (executeHealthCheck (net w (baseUrl ++ "/"))
                       (baseUrl ++ "/") 1 5000) in
    let api := fst (executeHealthCheck (net w (baseUrl ++ "/api/health"))
                      (baseUrl ++ "/api/health") 1 5000) in
    let some_failed := negb (success home && success api) in
    alerting (snd (GET env w request)) =
      (if some_failed && truthy (SLACK_WEBHOOK_URL env)
       then [EvPost (template (SLACK_WEBHOOK_URL env))
               (formatHealthAlert (localTime w) [home; api] baseUrl)]
       else []) /\
    body (fst (GET env w request)) =
      Summary (negb some_failed) (isoTime w) (duration w) [home; api]
        some_failed.
Proof.
  intros env w request A baseUrl home api some_failed. subst some_failed.
  rewrite (cron_GET_run w A). cbn [fst snd alerting body].
  fold baseUrl. fold home. fold api.
  split; [| rewrite negb_involutive; reflexivity].
  destruct (negb (success home && success api)) eqn:F; cbn [andb];
    [| reflexivity].
  rewrite sendSlackAlert_run. cbn [snd truthy orb or_string].
  assert (E : existsb failed [home; api] = true).
  { unfold failed. cbn [existsb].
    destruct (success home), (success api); cbn in *; congruence. }
  rewrite E. destruct (truthy (SLACK_WEBHOOK_URL env)); reflexivity.
Qed.

Lemma probe_budget (n : Z -> fetch_outcome) (u : string) :
  let tr := snd (executeHealthCheck n u 1 5000) in
  Forall (probe_event u 5000) tr /\
  (requests tr <= 2)%Z /\ (sleeps tr <= 1)%Z.
Proof.
  intro tr. subst tr. unfold executeHealthCheck.
  destruct (@attemptLoop_trace_bounds n u 1%Z 5000%Z (attempt_range 1) ""
              None [] (Forall_nil _)) as (F & R & S).
  split; [exact F |].
  assert (L : Z.of_nat (List.length (attempt_range 1)) = 2%Z) by reflexivity.
  assert (L' : Z.of_nat (List.length (filter (fun k => (k <? 1)%Z)
                                        (attempt_range 1))) = 1%Z)
    by reflexivity.
  assert (R0 : requests [] = 0%Z) by reflexivity.
  assert (S0 : sleeps [] = 0%Z) by reflexivity.
  split; lia.
Qed.

(** X15.  What a run for an authorized request costs: two probes, each
    requesting only its own URL (the base URL followed by "/" for the
    first, by "/api/health" for the second), at most twice, with at most
    one sleep, of 5000 ms, and at most one request to the webhook. *)
Theorem cron_GET_budget :
  forall (env : Env) (w : World) (request : Request),
    authorized env request ->
    let baseUrl := baseUrl_of env request in
    exists t_home t_api,
      probing (snd (GET env w request)) = [t_home; t_api] /\
      Forall (probe_event (baseUrl ++ "/") 5000) t_home /\
      Forall (probe_event (baseUrl ++ "/api/health") 5000) t_api /\
      (requests t_home <= 2)%Z /\ (requests t_api <= 2)%Z /\
      (sleeps t_home <= 1)%Z /\ (sleeps t_api <= 1)%Z /\
      (List.length (alerting (snd (GET env w request))) <= 1)%nat.
Proof.
  intros env w request A baseUrl.
  rewrite (cron_GET_run w A). cbn [snd probing alerting]. fold baseUrl.
  destruct (probe_budget (net w (baseUrl ++ "/")) (baseUrl ++ "/"))
    as (F1 & R1 & S1).
  destruct (probe_budget (net w (baseUrl ++ "/api/health"))
              (baseUrl ++ "/api/health")) as (F2 & R2 & S2).
  eexists. eexists. split; [reflexivity |].
  repeat split; auto.
  destruct (negb _); [| cbn; lia].
  rewrite sendSlackAlert_run. cbn [snd].
  destruct (_ && _); cbn; lia.
Qed.

(** X17.  The two handlers together.  When the requests of the second
    probe are answered with the code the health-status endpoint computes
    for the same environment, the probe succeeds, at its first attempt,
    exactly when the endpoint is healthy (nothing thrown, store URL and
    environment name both set and non-empty); otherwise it fails after two
    attempts with status 503 and the run reports a failure and
    [alertSent: true]. *)
Theorem cron_probe_of_health_endpoint :
  forall (env : Env) (w : World) (request : Request)
         (hw : HealthRoute.World) (statusText : string) (elapsed : Z),
    authorized env request ->
    let u := baseUrl_of env request ++ "/api/health" in
    (forall k, net w u k =
               Responded (statusCode (HealthRoute.GET env hw))
                 statusText elapsed) ->
    let api := fst (executeHealthCheck (net w u) u 1 5000) in
    let healthy :=
      HealthRoute.fault hw = None /\
      HealthRoute.set_and_non_empty (NEXT_PUBLIC_CONVEX_URL env) /\
      HealthRoute.set_and_non_empty (NODE_ENV env) in
    (success api = true <-> healthy) /\
    (if success api
     then api = mkResult u true (Some 200%Z) None 1 (Some elapsed)
     else api = mkResult u false (Some 503%Z)
                  (Some ("HTTP 503: " ++ statusText)) 2 None /\
          exists home,
            body (fst (GET env w request)) =
              Summary false (isoTime w) (duration w) [home; api] true).
Proof.
  intros env w request hw statusText elapsed A u Hnet api healthy.
  destruct (health_GET_response env hw) as (C & _ & _).
  assert (Hh : healthy <->
               match HealthRoute.fault hw with
               | Some _ => false
               | None => truthy (NEXT_PUBLIC_CONVEX_URL env)
                         && truthy (NODE_ENV env)
               end = true).
  { subst healthy. rewrite <- !truthy_set_and_non_empty.
    destruct (HealthRoute.fault hw).
    - split; [intros [H _]; discriminate H | discriminate].
    - rewrite andb_true_iff. tauto. }
  assert (Hapi : api =
            if match HealthRoute.fault hw with
               | Some _ => false
               | None => truthy (NEXT_PUBLIC_CONVEX_URL env)
                         && truthy (NODE_ENV env)
               end
            then mkResult u true (Some 200%Z) None 1 (Some elapsed)
            else mkResult u false (Some 503%Z)
                   (Some ("HTTP 503: " ++ statusText)) 2 None).
  { subst api. unfold executeHealthCheck.
    change (attempt_range 1) with [0%Z; 1%Z].
    cbn [attemptLoop]. rewrite !Hnet, C.
    destruct (match HealthRoute.fault hw with
              | Some _ => false
              | None => _
              end); reflexivity. }
  rewrite Hh, Hapi.
  destruct (match HealthRoute.fault hw with
            | Some _ => false
            | None => _
            end) eqn:E; cbn [success].
  - split; [tauto | reflexivity].
  - split; [split; discriminate |]. split; [reflexivity |].
    rewrite (cron_GET_run w A). cbn [fst body].
    fold u. fold api. rewrite Hapi. cbn [success].
    rewrite andb_false_r. eexists. reflexivity.
Qed.

End CronRunFacts.

Lemma cron_GET_alerting_witness :
  let env := Js.mkEnv (Some "s3cret"%string) (Some "production"%string)
               None None in
  let w := CronRoute.mkWorld
             (fun _ _ => HealthCheck.Responded 503 "Service Unavailable" 20)
             (fun _ _ => HealthCheck.PostResponded 200)
             "2024-11-03T12:00:00.000Z" "Nov 3, 2024, 4:00 AM" 45 in
  let request := CronRoute.mkRequest (Some "Bearer s3cret"%string)
                   (Some "gistgeo.ai"%string) in
  let home := fst (HealthCheck.executeHealthCheck
                     (CronRoute.net w "https://gistgeo.ai/")
                     "https://gistgeo.ai/" 1 5000) in
  let api := fst (HealthCheck.executeHealthCheck
                    (CronRoute.net w "https://gistgeo.ai/api/health")
                    "https://gistgeo.ai/api/health" 1 5000) in
  CronRoute.alerting (snd (CronRoute.GET env w request)) = [] /\
  Js.body (fst (CronRoute.GET env w request)) =
    CronRoute.Summary false "2024-11-03T12:00:00.000Z" 45 [home; api] true.
Proof.
  intros env w request.
  apply (@cron_GET_alerting env w request).
  exists "s3cret"%string. repeat split. discriminate.
Defined.

Lemma cron_GET_budget_witness :
  let env := Js.mkEnv (Some "s3cret"%string) (Some "production"%string)
               (Some "https://hooks.slack.com/services/T0/B0/x"%string) None in
  let w := CronRoute.mkWorld
             (fun _ _ => HealthCheck.Threw (Js.ErrorObject "fetch failed"))
             (fun _ _ => HealthCheck.PostResponded 200)
             "2024-11-03T12:00:00.000Z" "Nov 3, 2024, 4:00 AM" 45 in
  let request := CronRoute.mkRequest (Some "Bearer s3cret"%string)
                   (Some "gistgeo.ai"%string) in
  exists t_home t_api,
    CronRoute.probing (snd (CronRoute.GET env w request)) = [t_home; t_api] /\
    Forall (ProbeRuns.probe_event "https://gistgeo.ai/" 5000) t_home /\
    Forall (ProbeRuns.probe_event "https://gistgeo.ai/api/health" 5000) t_api /\
    (HealthCheck.requests t_home <= 2)%Z /\
    (HealthCheck.requests t_api <= 2)%Z /\
    (ProbeRuns.sleeps t_home <= 1)%Z /\ (ProbeRuns.sleeps t_api <= 1)%Z /\
    (List.length (CronRoute.alerting (snd (CronRoute.GET env w request)))
     <= 1)%nat.
Proof.
  intros env w request.
  apply (@cron_GET_budget env w request).
  exists "s3cret"%string. repeat split. discriminate.
Defined.

Lemma cron_probe_of_health_endpoint_witness :
  let env := Js.mkEnv (Some "s3cret"%string) (Some "production"%string)
               None None in
  let hw := HealthRoute.mkWorld "2024-11-03T12:00:00.000Z" None in
  let w := CronRoute.mkWorld
             (fun _ _ => HealthCheck.Responded
                           (Js.statusCode (HealthRoute.GET env hw))
                           "Service Unavailable" 20)
             (fun _ _ => HealthCheck.PostResponded 200)
             "2024-11-03T12:00:00.000Z" "Nov 3, 2024, 4:00 AM" 45 in
  let request := CronRoute.mkRequest (Some "Bearer s3cret"%string)
                   (Some "gistgeo.ai"%string) in
  let u := "https://gistgeo.ai/api/health"%string in
  let api := fst (HealthCheck.executeHealthCheck (CronRoute.net w u) u 1 5000) in
  let healthy :=
    HealthRoute.fault hw = None /\
    HealthRoute.set_and_non_empty (Js.NEXT_PUBLIC_CONVEX_URL env) /\
    HealthRoute.set_and_non_empty (Js.NODE_ENV env) in
  (HealthCheck.success api = true <-> healthy) /\
  (if HealthCheck.success api
   then api = HealthCheck.mkResult u true (Some 200%Z) None 1 (Some 20%Z)
   else api = HealthCheck.mkResult u false (Some 503%Z)
                (Some "HTTP 503: Service Unavailable"%string) 2 None /\
        exists home,
          Js.body (fst (CronRoute.GET env w request)) =
            CronRoute.Summary false "2024-11-03T12:00:00.000Z" 45
              [home; api] true).
Proof.
  intros env hw w request.
  apply (@cron_probe_of_health_endpoint env w request hw
           "Service Unavailable"%string 20%Z).
  - exists "s3cret"%string. repeat split. discriminate.
  - intro k. reflexivity.
Defined.

(** ** The signup form *)

Section FormFacts.
Import Js JsRegExp EmailSignupInput.
Local Open Scope string_scope.

Lemma or_string_non_empty (a : option string) (b : string) :
  b <> "" -> or_string a b <> "".
Proof.
  intro Hb. unfold or_string. destruct a as [s |]; [| exact Hb].
  destruct (String.eqb_spec s ""); auto.
Qed.

Lemma non_empty_eqb (s : string) : s <> "" -> (s =? "") = false.
Proof. intro H. destruct (String.eqb_spec s ""); [contradiction | reflexivity]. Qed.

(** X18.  A submission of an empty address, or of one the pattern
    rejects, never reaches [onSubmit].  The error text becomes
    [errorMessage], or "Invalid email address." when that is missing or
    empty, so it is never empty; [onError] and [onStateChange], if passed,
    are told; and unless the state is controlled from outside the form is
    in the "error" state and shows that text as its alert. *)
Theorem handleSubmit_invalid :
  forall (p : Props) (submit : Signups.jsstring -> settled) (c : Cells),
    is_empty (email c) = true \/ isValidEmailFormat (email c) = false ->
    let errMsg := or_string (errorMessage p) "Invalid email address." in
    let c' := fst (handleSubmit p submit c) in
    snd (handleSubmit p submit c) =
      ([CallPreventDefault]
         ++ (if onStateChange p then [CallOnStateChange Error] else [])
         ++ (if onError p then [CallOnError errMsg] else []))%list /\
    email c' = email c /\ error c' = errMsg /\ errMsg <> "" /\
    match controlledState p with
    | Some _ => internalState c' = internalState c
    | None => internalState c' = Error /\ alert (render p c') = Some errMsg
    end.
Proof.
  intros p submit c H errMsg c'. subst c'.
  assert (Hne : errMsg <> "").
  { apply or_string_non_empty. discriminate. }
  assert (G : is_empty (email c) || negb (isValidEmailFormat (email c)) = true).
  { apply orb_true_iff. destruct H as [-> | ->]; auto. }
  unfold handleSubmit, handleSubmit_start. rewrite G. fold errMsg.
  unfold fail_with, setState, and_then, notify, setError, render, state_of.
  destruct (controlledState p) as [s |]; cbn.
  - repeat split; auto. rewrite app_nil_r. reflexivity.
  - rewrite (non_empty_eqb Hne). cbn.
    repeat split; auto. rewrite app_nil_r. reflexivity.
Qed.

Lemma emailRegex_accepts_run (e : Signups.jsstring) (db : Signups.Db) :
  test Signups.emailRegex e = true ->
  exists r, Signups.returned (Signups.createSignup e db) = inr r.
Proof.
  intro T. destruct (createSignup_cases e db)
    as [[T' _] | [(_ & _ & ->) | (_ & _ & ->)]]; cbn; eauto.
  congruence.
Qed.

(** When the form calls [onSubmit], and with what. *)
Lemma handleSubmit_calls_onSubmit_iff :
  forall (p : Props) (submit : Signups.jsstring -> settled) (c : Cells)
         (e : Signups.jsstring),
    In (CallOnSubmit e) (snd (handleSubmit p submit c)) <->
    onSubmit p = true /\ e = email c /\
    test Signups.emailRegex e = true.
Proof.
  intros p submit c e.
  change (test Signups.emailRegex) with isValidEmailFormat.
  unfold handleSubmit, handleSubmit_start.
  destruct (is_empty (email c)) eqn:Ee; cbn [orb].
  - unfold fail_with, setState, and_then, notify, setError.
    destruct (controlledState p), (onStateChange p), (onError p); cbn;
      split; try (intuition discriminate);
      intros (_ & -> & T); destruct (email c); discriminate.
  - destruct (isValidEmailFormat (email c)) eqn:Ev; cbn [negb].
    + destruct (onSubmit p) eqn:Eo.
      * destruct (handleSubmit_settle p (submit (email c)) c)
          as [c2 calls2] eqn:Es.
        cbn [snd]. split.
        -- intros [H | [H | H]]; [discriminate | |].
           ++ injection H as <-. auto.
           ++ exfalso. revert H. clear -Es.
              unfold handleSubmit_settle, succeed, fail_with, setState,
                and_then, notify, setError in Es.
              destruct (submit (email c)), (controlledState p),
                (onStateChange p), (onError p);
                cbn in Es; injection Es as _ <-; cbn;
                intuition discriminate.
        -- intros (_ & -> & _). right. left. reflexivity.
      * unfold succeed, setState, and_then, notify, setError.
        destruct (controlledState p), (onStateChange p); cbn;
          split; intuition discriminate.
    + unfold fail_with, setState, and_then, notify, setError.
      destruct (controlledState p), (onStateChange p), (onError p); cbn;
        split; try (intuition discriminate);
        intros (_ & -> & T); congruence.
Qed.

(** X19.  The form and the registrar agree on what an address is: an
    address the form hands to [onSubmit] is the content of the input and is
    accepted by the pattern of [createSignup]; so, passed on to
    [createSignup], it never fails validation, whatever the store, and it
    is on record afterwards. *)
Theorem handleSubmit_submits_what_createSignup_accepts :
  forall (p : Props) (submit : Signups.jsstring -> settled) (c : Cells)
         (e : Signups.jsstring) (db : Signups.Db),
    In (CallOnSubmit e) (snd (handleSubmit p submit c)) ->
    e = email c /\
    test Signups.emailRegex e = true /\
    (exists r, Signups.returned (Signups.createSignup e db) = inr r) /\
    In e (SignupRuns.emails (Signups.db_after (Signups.createSignup e db))).
Proof.
  intros p submit c e db H.
  apply handleSubmit_calls_onSubmit_iff in H as (_ & He & T).
  split; [exact He |]. split; [exact T |].
  split; [apply emailRegex_accepts_run; exact T |].
  destruct (emails_after e db) as [[-> [F | Hin]] | (-> & _ & _)].
  - congruence.
  - exact Hin.
  - apply in_or_app. right. left. reflexivity.
Qed.

(** X20.  Typing in the form, when the state is not controlled from
    outside: the address becomes what was typed; the state becomes
    "default" for an empty input and "submitted" otherwise, so the alert
    is no longer shown; the error text is kept, except that it is cleared
    when the typed address is accepted by the pattern. *)
Theorem handleChange_uncontrolled :
  forall (p : Props) (v : Signups.jsstring) (c : Cells),
    controlledState p = None ->
    let c' := fst (handleChange p v c) in
    email c' = v /\
    internalState c' = (if is_empty v then Default else Submitted) /\
    alert (render p c') = None /\
    error c' = (if isValidEmailFormat v then "" else error c) /\
    snd (handleChange p v c) =
      (if onStateChange p
       then [CallOnStateChange (if is_empty v then Default else Submitted)]
       else []).
Proof.
  intros p v c Hc c'. subst c'.
  unfold handleChange, setState, and_then, notify, setEmail, setError, skip,
    render, state_of.
  rewrite Hc.
  destruct (String.eqb_spec (error c) "") as [E | E];
    destruct (isValidEmailFormat v); destruct (is_empty v);
    destruct (onStateChange p); cbn; rewrite ?E; repeat split; reflexivity.
Qed.


(** X22.  A submission that [onSubmit] rejects, when the state is not
    controlled from outside: the form goes to "error" with the text
    [errorMessage] if that is passed and non-empty, else the message of the
    exception, else (for a value that is not an [Error]) "Submission
    failed."; [onError], if passed, gets that text.  The alert shows the
    text, except that no alert is shown when the text is empty, as for an
    [Error] with an empty message. *)
Theorem handleSubmit_rejected :
  forall (p : Props) (submit : Signups.jsstring -> settled) (c : Cells)
         (err : thrown),
    controlledState p = None -> onSubmit p = true ->
    is_empty (email c) = false -> isValidEmailFormat (email c) = true ->
    submit (email c) = Rejected err ->
    let errMsg :=
      or_string (errorMessage p) (message_or "Submission failed." err) in
    let c' := fst (handleSubmit p submit c) in
    c' = mkCells Error (email c) errMsg /\
    alert (render p c') = (if errMsg =? "" then None else Some errMsg) /\
    snd (handleSubmit p submit c) =
      ([CallPreventDefault; CallOnSubmit (email c)]
         ++ (if onStateChange p then [CallOnStateChange Error] else [])
         ++ (if onError p then [CallOnError errMsg] else []))%list.
Proof.
  intros p submit c err Hc Ho He Hv Hs errMsg c'. subst c'.
  unfold handleSubmit, handleSubmit_start. rewrite He, Hv, Ho, Hs.
  cbn [orb negb]. unfold handleSubmit_settle. fold errMsg.
  unfold fail_with, setState, and_then, notify, setError, render, state_of.
  rewrite Hc.
  destruct (onStateChange p), (onError p); cbn; rewrite ?Hc; cbn;
    destruct (errMsg =? ""); repeat split; reflexivity.
Qed.

(** X23.  When the state is controlled from outside, no handler changes
    what is shown as the state, nor the internal state cell: typing,
    submitting and the reset timer only pass the state they ask for to
    [onStateChange]. *)
Theorem controlled_state_is_kept :
  forall (p : Props) (s : EmailInputState)
         (submit : Signups.jsstring -> settled)
         (v : Signups.jsstring) (c : Cells),
    controlledState p = Some s ->
    let after_change := fst (handleChange p v c) in
    let after_submit := fst (handleSubmit p submit c) in
    let after_reset := fst (autoReset p c) in
    (state_of p after_change = s /\
     internalState after_change = internalState c) /\
    (state_of p after_submit = s /\
     internalState after_submit = internalState c) /\
    (state_of p after_reset = s /\
     internalState after_reset = internalState c).
Proof.
  intros p s submit v c Hc after_change after_submit after_reset.
  subst after_change after_submit after_reset.
  unfold state_of. rewrite Hc. repeat split.
  - unfold handleChange, setState, and_then, notify, setEmail, setError, skip.
    rewrite Hc.
    destruct (negb (error c =? "") && isValidEmailFormat v), (is_empty v),
      (onStateChange p); reflexivity.
  - unfold handleSubmit, handleSubmit_start, handleSubmit_settle, fail_with,
      succeed, setState, and_then, notify, setError.
    rewrite Hc.
    destruct (is_empty (email c) || negb (isValidEmailFormat (email c))),
      (onSubmit p), (onStateChange p), (onError p);
      try destruct (submit (email c)); reflexivity.
  - unfold autoReset, state_of, setState, and_then, notify, setEmail, setError.
    rewrite Hc.
    destruct s, (onStateChange p), (onSuccess p); reflexivity.
Qed.

(** X24.  The form as the landing page wires it.  Whatever is in the
    input, a submission ends in "success" when the address is non-empty and
    accepted by the pattern, after one call of the page's [handleSubmit]
    with it, and in "error" with the alert "Invalid email address."
    otherwise, with no call of [handleSubmit]; it never ends in another
    state. *)
Theorem Home_submission :
  forall c : Cells,
    let run := handleSubmit Home_props Home_handleSubmit c in
    if negb (is_empty (email c)) && isValidEmailFormat (email c)
    then run = (mkCells Success (email c) "",
                [CallPreventDefault; CallOnSubmit (email c)])
    else run = (mkCells Error (email c) "Invalid email address.",
                [CallPreventDefault; CallOnError "Invalid email address."]) /\
         alert (render Home_props (fst run)) = Some "Invalid email address.".
Proof.
  intros c run. subst run.
  unfold handleSubmit, handleSubmit_start, Home_props, Home_handleSubmit.
  destruct (is_empty (email c)); cbn [negb andb orb].
  - cbn. split; reflexivity.
  - destruct (isValidEmailFormat (email c)); cbn; [| split]; reflexivity.
Qed.

Lemma handleSubmit_invalid_witness :
  let p := mkProps true true true true None None in
  let c := mkCells Submitted (Signups.of_string "ann.example.com") "" in
  let errMsg := "Invalid email address." in
  let c' := fst (handleSubmit p (fun _ => Resolved) c) in
  snd (handleSubmit p (fun _ => Resolved) c) =
    ([CallPreventDefault] ++ [CallOnStateChange Error]
       ++ [CallOnError errMsg])%list /\
  email c' = Signups.of_string "ann.example.com" /\
  error c' = errMsg /\ errMsg <> "" /\
  (internalState c' = Error /\ alert (render p c') = Some errMsg).
Proof.
  intros p c.
  apply (@handleSubmit_invalid p (fun _ => Resolved) c).
  right. vm_compute. reflexivity.
Defined.

Lemma handleSubmit_submits_what_createSignup_accepts_witness :
  let e := Signups.of_string "ann@example.com" in
  let db := Signups.mkDb [] 0 in
  e = Signups.of_string "ann@example.com" /\
  test Signups.emailRegex e = true /\
  (exists r, Signups.returned (Signups.createSignup e db) = inr r) /\
  In e (SignupRuns.emails (Signups.db_after (Signups.createSignup e db))).
Proof.
  intros e db.
  apply (@handleSubmit_submits_what_createSignup_accepts
           (mkProps true true true false None None) (fun _ => Resolved)
           (mkCells Submitted (Signups.of_string "ann@example.com") "")
           e db).
  vm_compute. right. left. reflexivity.
Defined.

Lemma handleChange_uncontrolled_witness :
  let p := mkProps true true true false None None in
  let c := mkCells Error (Signups.of_string "ann@") "Invalid email address." in
  let v := Signups.of_string "ann@example.com" in
  let c' := fst (handleChange p v c) in
  email c' = v /\
  internalState c' = Submitted /\
  alert (render p c') = None /\
  error c' = "" /\
  snd (handleChange p v c) = [].
Proof.
  intros p c v.
  apply (@handleChange_uncontrolled p v c). reflexivity.
Defined.


Lemma handleSubmit_rejected_witness :
  let p := mkProps true true true false None None in
  let c := mkCells Submitted (Signups.of_string "ann@example.com") "" in
  let submit := fun _ : Signups.jsstring => Rejected (ErrorObject "") in
  let c' := fst (handleSubmit p submit c) in
  c' = mkCells Error (Signups.of_string "ann@example.com") "" /\
  alert (render p c') = None /\
  snd (handleSubmit p submit c) =
    ([CallPreventDefault; CallOnSubmit (Signups.of_string "ann@example.com")]
       ++ [] ++ [CallOnError ""])%list.
Proof.
  intros p c submit.
  apply (@handleSubmit_rejected p submit c (ErrorObject ""));
    reflexivity.
Defined.

Lemma controlled_state_is_kept_witness :
  let p := mkProps true true true true None (Some Default) in
  let c := mkCells Default (Signups.of_string "ann@example.com") "" in
  let after_change := fst (handleChange p (Signups.of_string "b") c) in
  let after_submit := fst (handleSubmit p (fun _ => Resolved) c) in
  let after_reset := fst (autoReset p c) in
  (state_of p after_change = Default /\
   internalState after_change = internalState c) /\
  (state_of p after_submit = Default /\
   internalState after_submit = internalState c) /\
  (state_of p after_reset = Default /\
   internalState after_reset = internalState c).
Proof.
  intros p c.
  apply (@controlled_state_is_kept p Default (fun _ => Resolved)
           (Signups.of_string "b") c).
  reflexivity.
Defined.

End FormFacts.
